(** * HappyPack: the plugin's lifecycle, compile routing and option handling

    A shallow embedding of [HappyPlugin.js] (the orchestration engine) and of
    [lib/OptionParser.js], with the properties the design document states
    about them.

    Conventions.
    - JavaScript values are the inductive [JSValue]; numbers are [JSNum]:
      a rational for every finite double, and the three special values.
      [Math.ceil] and [Math.max] are exact on doubles, so computing them on
      rationals loses nothing (the sign of zero is not tracked).
    - A JavaScript object that is enumerated with [Object.keys] is an
      association list in enumeration order when the order is observable
      (which assertion fires first), and a [gmap] when it is not.
    - The plugin's collaborators (file system, cache, thread pool, loader
      pipeline, host compiler) are not part of the modelled files.  The file
      system and the cache are interfaces (type classes); every call the
      plugin makes on a collaborator is also appended to a trace of events,
      so that the order of the calls can be stated.
    - Console output ([console.log], [console.error], [console.warn]) is
      not recorded. *)

From Stdlib Require Import QArith Qround.
From stdpp Require Import gmap strings list fin_maps.

Local Open Scope string_scope.

(* ===================================================================== *)
(** ** JavaScript values *)
(* ===================================================================== *)

Inductive JSNum : Type :=
| NaN
| PosInf
| NegInf
| Fin (q : Q).

#[local] Unset Elimination Schemes.
Inductive JSValue : Type :=
| VUndefined
| VNull
| VBool (b : bool)
| VNum (n : JSNum)
| VStr (s : string)
| VArr (xs : list JSValue)
| VObj (props : list (string * JSValue))
| VError (name message : string).
#[local] Set Elimination Schemes.

(** [typeof v] *)
Definition typeof (v : JSValue) : string :=
  match v with
  | VUndefined => "undefined"
  | VNull => "object"
  | VBool _ => "boolean"
  | VNum _ => "number"
  | VStr _ => "string"
  | VArr _ | VObj _ | VError _ _ => "object"
  end.

(** ToBoolean: what [if (v)], [v && ...], [!v] and [Boolean(v)] test. *)
Definition truthy (v : JSValue) : bool :=
  match v with
  | VUndefined | VNull => false
  | VBool b => b
  | VNum NaN => false
  | VNum (Fin q) => negb (Qeq_bool q 0)
  | VNum _ => true
  | VStr s => negb (String.eqb s "")
  | VArr _ | VObj _ | VError _ _ => true
  end.

(** [Math.ceil] on a number. *)
Definition Math_ceil (n : JSNum) : JSNum :=
  match n with
  | Fin q => Fin (inject_Z (Qceiling q))
  | other => other
  end.

(** [Math.max] of two numbers: NaN wins over everything. *)
Definition Math_max (a b : JSNum) : JSNum :=
  match a, b with
  | NaN, _ | _, NaN => NaN
  | PosInf, _ | _, PosInf => PosInf
  | NegInf, x | x, NegInf => x
  | Fin p, Fin q => if Qle_bool p q then Fin q else Fin p
  end.

(** Own enumerable properties of an object in enumeration order. *)
Definition JSObject : Type := list (string * JSValue).

Definition Object_keys {A} (o : list (string * A)) : list string := o.*1.

Fixpoint own {A} (o : list (string * A)) (key : string) : option A :=
  match o with
  | [] => None
  | (k, v) :: rest => if String.eqb k key then Some v else own rest key
  end.

(** Results of code that may throw: [inl e] is the thrown value. *)
Definition Res (A : Type) : Type := JSValue + A.

(** [o.hasOwnProperty(key)], with [name] the variable that holds [o].  The
    method is looked up on the object itself first, so an own property
    called "hasOwnProperty" hides the one of [Object.prototype]; none of
    the values modelled here can be called, and calling one throws a
    TypeError. *)
Definition hasOwnProperty {A} (name : string) (o : list (string * A)) (key : string)
  : Res bool :=
  match own o "hasOwnProperty" with
  | Some _ => inl (VError "TypeError" (name ++ ".hasOwnProperty is not a function"))
  | None => inr (match own o key with Some _ => true | None => false end)
  end.

(** [o[key]] on a plain object: [undefined] when the key is absent. *)
Definition prop (o : JSObject) (key : string) : JSValue :=
  match own o key with Some v => v | None => VUndefined end.

(** [v.path] for an arbitrary value [v]: reading a property of [undefined]
    or [null] throws a TypeError; values other than plain objects have no
    property of the names read in this program. *)
Definition member (v : JSValue) (key : string) : Res JSValue :=
  match v with
  | VUndefined =>
      inl (VError "TypeError" ("Cannot read properties of undefined (reading '" ++ key ++ "')"))
  | VNull =>
      inl (VError "TypeError" ("Cannot read properties of null (reading '" ++ key ++ "')"))
  | VObj props => inr (prop props key)
  | _ => inr VUndefined
  end.

(* ===================================================================== *)
(** ** lib/OptionParser.js *)
(* ===================================================================== *)

Module OptionParser.

(** One entry of the schema.  An absent [type], [default] or [validate]
    is [None]; [validate] returns the error message, or [None] for
    [undefined], and may throw. *)
Record Spec : Type := {
  type : option string;
  default : option JSValue;
  validate : option (JSValue -> Res (option string));
  isRequired : bool
}.

Definition Schema : Type := list (string * Spec).

Definition format (displayName message : string) : string :=
  "HappyPack[" ++ displayName ++ "]: " ++ message.

(** [assert(cond, message)] *)
Definition assert (cond : bool) (message : string) : Res unit :=
  if cond then inr tt else inl (VError "AssertionError" message).

(** [spec.default] as a condition: an absent default is [undefined]. *)
Definition has_default (s : Spec) : option JSValue :=
  match default s with
  | Some d => if truthy d then Some d else None
  | None => None
  end.

Definition getDefaults (schema : Schema) : gmap string JSValue :=
  foldl (fun hsh key =>
           match own schema key with
           | Some s =>
               match has_default s with
               | Some d => <[key := d]> hsh
               | None => hsh
               end
           | None => hsh
           end)
        ∅ (Object_keys schema).

(** The [forEach] over the required keys; stops at the first failure. *)
Fixpoint checkRequired (params : JSObject) (displayName : string)
         (keys : list string) : Res unit :=
  match keys with
  | [] => inr tt
  | key :: rest =>
      match hasOwnProperty "params" params key with
      | inl e => inl e
      | inr present =>
          match assert present
                       (format displayName
                          ("Missing required parameter '" ++ key ++ "'")) with
          | inl e => inl e
          | inr _ => checkRequired params displayName rest
          end
      end
  end.

(** The body of the [reduce] callback for one key: [spec] and [value] are
    read, then [schema.hasOwnProperty(key)] is asserted, then the value is
    validated, type-checked and stored. *)
Definition parseKey (params : JSObject) (schema : Schema) (displayName : string)
           (hsh : gmap string JSValue) (key : string) : Res (gmap string JSValue) :=
  let value := prop params key in
  match hasOwnProperty "schema" schema key, own schema key with
  | inl e, _ => inl e
  | inr true, Some spec =>
      let validated : Res unit :=
        match validate spec with
        | Some f =>
            match f value with
            | inl e => inl e
            | inr None => inr tt
            | inr (Some validationError) =>
                assert (negb (truthy (VStr validationError)))
                       (format displayName validationError)
            end
        | None => inr tt
        end in
      match validated with
      | inl e => inl e
      | inr _ =>
          let typed : Res unit :=
            match type spec with
            | Some t =>
                assert (String.eqb (typeof value) t)
                       (format displayName
                          ("Option '" ++ key ++ "' must be of type '" ++ t
                           ++ "' not '" ++ typeof value ++ "'."))
            | None => inr tt
            end in
          match typed with
          | inl e => inl e
          | inr _ =>
              match has_default spec, value with
              | Some d, (VUndefined | VNull) => inr (<[key := d]> hsh)
              | _, _ => inr (<[key := value]> hsh)
              end
          end
      end
  | inr _, _ => inl (VError "AssertionError"
                       (format displayName ("Unrecognized option '" ++ key ++ "'")))
  end.

Fixpoint reduceKeys (params : JSObject) (schema : Schema) (displayName : string)
         (hsh : gmap string JSValue) (keys : list string) : Res (gmap string JSValue) :=
  match keys with
  | [] => inr hsh
  | key :: rest =>
      match parseKey params schema displayName hsh key with
      | inl e => inl e
      | inr hsh' => reduceKeys params schema displayName hsh' rest
      end
  end.

Definition parseAndValidateOptions (params : JSObject) (schema : Schema)
           (displayName : string) : Res (gmap string JSValue) :=
  match checkRequired params displayName
          (List.filter (fun key => match own schema key with
                                   | Some s => isRequired s
                                   | None => false
                                   end)
                       (Object_keys schema)) with
  | inl e => inl e
  | inr _ => reduceKeys params schema displayName (getDefaults schema) (Object_keys params)
  end.

End OptionParser.

(* ===================================================================== *)
(** ** HappyPlugin.js: construction *)
(* ===================================================================== *)

(** The [validate] function of the [loaders] option. *)
Fixpoint some_without_path (value : list JSValue) : Res bool :=
  match value with
  | [] => inr false
  | loader :: rest =>
      match member loader "path" with
      | inl e => inl e
      | inr p => if negb (truthy p) then inr true else some_without_path rest
      end
  end.

Definition validate_loaders (value : JSValue) : Res (option string) :=
  match value with
  | VArr xs =>
      match xs with
      | [] => inr (Some "You must specify at least one loader!")
      | _ =>
          match some_without_path xs with
          | inl e => inl e
          | inr true => inr (Some "Loader must have a @path property.")
          | inr false => inr None
          end
      end
  | _ => inr (Some "Loaders must be an array!")
  end.

(** The schema literal passed to [OptionParser] by the constructor. *)
Definition happy_schema : OptionParser.Schema :=
  [ ("id", OptionParser.Build_Spec (Some "string") None None false);
    ("tempDir", OptionParser.Build_Spec (Some "string") (Some (VStr ".happypack")) None false);
    ("threads", OptionParser.Build_Spec (Some "number") (Some (VNum (Fin 3))) None false);
    ("cache", OptionParser.Build_Spec (Some "boolean") (Some (VBool true)) None false);
    ("cacheContext", OptionParser.Build_Spec None (Some (VObj [])) None false);
    ("cachePath", OptionParser.Build_Spec (Some "string") None None false);
    ("installExitHandler", OptionParser.Build_Spec (Some "boolean") (Some (VBool true)) None false);
    ("loaders", OptionParser.Build_Spec None None (Some validate_loaders) true) ].

(** The constructor up to the coercion of [threads]:
    [this.config = OptionParser(userConfig, {...}, this.id);
     this.config.threads = Math.max(Math.ceil(this.config.threads), 1);]
    [id] is [this.id], already computed.  [Math.ceil] converts its argument
    to a number first; the parser leaves a number under [threads] (lemma
    [parsed_threads_is_number]), so the conversion of other values is left
    out: the last branch is never taken. *)
Definition HappyPlugin (userConfig : JSObject) (id : string) : Res (gmap string JSValue) :=
  match OptionParser.parseAndValidateOptions userConfig happy_schema id with
  | inl e => inl e
  | inr config =>
      match config !! "threads" with
      | Some (VNum n) =>
          inr (<["threads" := VNum (Math_max (Math_ceil n) (Fin 1))]> config)
      | _ => inl (VError "Unmodelled" "ToNumber of a value that is not a number")
      end
  end.

(** [this.config] as the constructor leaves it: the parse and the coercion
    above, then
    [this.config.optionsPath =
       path.resolve(this.config.tempDir, 'options--' + this.id + '.json');]
    No later line of the constructor assigns to [this.config].
    [path.resolve] is Node's and is a parameter.  The parser leaves a string
    under [tempDir], so what [path.resolve] does with another value is left
    out: the last branch is never taken. *)
Definition HappyPlugin_config (path_resolve : string -> string -> string)
           (userConfig : JSObject) (id : string) : Res (gmap string JSValue) :=
  match HappyPlugin userConfig id with
  | inl e => inl e
  | inr config =>
      match config !! "tempDir" with
      | Some (VStr tempDir) =>
          inr (<["optionsPath" :=
                   VStr (path_resolve tempDir ("options--" ++ id ++ ".json"))]> config)
      | _ => inl (VError "Unmodelled" "path.resolve of a value that is not a string")
      end
  end.

(* ===================================================================== *)
(** ** HappyPlugin.js: the configuration snapshot *)
(* ===================================================================== *)

Definition SERIALIZABLE_OPTIONS : list string :=
  [ "cache"; "context"; "debug"; "devtool"; "resolve"; "resolveLoader";
    "module"; "node"; "output"; "target"; "watch" ].

(** [array.indexOf(key)]: the first index holding [key], or -1. *)
Fixpoint indexOf_from (i : Z) (l : list string) (key : string) : Z :=
  match l with
  | [] => (-1)%Z
  | x :: rest => if String.eqb x key then i else indexOf_from (i + 1)%Z rest key
  end.

Definition indexOf (l : list string) (key : string) : Z := indexOf_from 0%Z l key.

Section ExtractOptions.
(** The values of the host's options are opaque to the plugin. *)
Context {V : Type}.

(** The callback of the [reduce]: [options[key]] of an enumerated key is
    its own value. *)
Definition extract_step (options hsh : gmap string V) (key : string) : gmap string V :=
  if (indexOf SERIALIZABLE_OPTIONS key >? -1)%Z
  then match options !! key with
       | Some v => <[key := v]> hsh
       | None => hsh
       end
  else hsh.

(** [Object.keys(options).reduce(function(hsh, key) {...}, {})] *)
Definition extractOptions (options : gmap string V) : gmap string V :=
  foldl (extract_step options) ∅ (map_to_list options).*1.
End ExtractOptions.

(* ===================================================================== *)
(** ** The collaborators *)
(* ===================================================================== *)

(** [fs.readFileSync(path, 'utf-8')] and [fs.writeFileSync(path, data,
    'utf-8')]; both may throw. *)
Class FileSystem (F : Type) : Type := {
  fs_read : F -> string -> Res string;
  fs_write : F -> string -> string -> Res F
}.

(** The handle returned by [HappyFSCache(id, ...)].  [updateMTimeFor] takes
    [(filePath, compiledPath, error)]; [None] stands for [null] or for an
    argument that is not passed. *)
Class FSCache (C : Type) : Type := {
  cache_load : C -> C;
  cache_save : C -> C;
  hasChanged : C -> string -> bool;
  hasErrored : C -> string -> bool;
  getCompiledPath : C -> string -> string;
  invalidateEntryFor : C -> string -> C;
  updateMTimeFor : C -> string -> option string -> option string -> C
}.

Module Config.
(** The fields of [this.config] that the plugin reads after
    construction. *)
Record t : Type := {
  cache : bool;
  optionsPath : string;
  tempDir : string;
  loaders : JSValue;
  installExitHandler : bool;
  threads : JSNum
}.
End Config.

(** The object returned by [HappyThreadPool(config)]. *)
Record ThreadPool : Type := { pool_config : Config.t }.

(** What a worker hands to the callback of [compile]. *)
Record WorkerResult : Type := { success : bool; compiledPath : string }.

(** What the loader pipeline hands to its callback on success. *)
Module LoaderResult.
Record t : Type := { code : string; map : JSValue }.
End LoaderResult.

(** How [applyLoaders] answers a call: it throws, it calls back before it
    returns, or it returns and calls back later. *)
Inductive LoaderReply : Type :=
| LoaderThrows (e : JSValue)
| LoaderCallsBack (err : JSValue) (result : LoaderResult.t)
| LoaderDefers.

(** The calls the plugin makes that act on a collaborator or on the host.
    Queries ([readFileSync], [hasChanged], [hasErrored],
    [getCompiledPath]) are answered from the state and are not recorded. *)
Inductive Event : Type :=
| FsWrite (path data : string)
| PoolCreate (cfg : Config.t)
| PoolStart
| PoolStop
| PoolCompile (filePath : string)
| CacheLoad
| CacheSave
| CacheInvalidate (filePath : string)
| CacheUpdate (filePath : string) (compiledPath error : option string)
| ApplyLoaders (source : string) (map : JSValue) (filePath : string)
| Done (args : list JSValue).

(** [this.state] *)
Record State : Type := { started : bool; initialBuildCompleted : bool }.

(** The calls that belong to the initial build: creating, starting and
    using the pool, and loading the cache. *)
Definition is_initial_build_call (ev : Event) : bool :=
  match ev with
  | PoolCreate _ | PoolStart | PoolCompile _ | CacheLoad => true
  | _ => false
  end.

(** The calls that read or write the cache file. *)
Definition is_cache_io (ev : Event) : bool :=
  match ev with
  | CacheLoad | CacheSave => true
  | _ => false
  end.

(* ===================================================================== *)
(** ** HappyPlugin.js: lifecycle and compile routing *)
(* ===================================================================== *)

Section Engine.
Context {F C : Type} `{!FileSystem F} `{!FSCache C}.

(** [that.config], [compiler.options] and the helper modules are fixed
    once [apply] has run. *)
Variable config : Config.t.
Variable compilerOptions : gmap string JSValue.
Variable serialize : JSValue -> gmap string JSValue -> Res string.
Variable path_resolve : string -> string -> string.
Variable generateCompiledPath : string -> string.
Variable applyLoaders :
  JSValue -> gmap string JSValue -> string -> JSValue -> string -> LoaderReply.

(** The mutable part of the plugin, the file system it works on, and the
    calls made so far (oldest first). *)
Record World : Type := {
  state : State;
  cache : C;
  threadPool : option ThreadPool;
  fs : F;
  trace : list Event
}.

(** Computations that read and change the world and may throw; what was
    changed before a throw stays changed. *)
Definition M (A : Type) : Type := World -> Res A * World.

#[local] Instance M_ret : MRet M := fun A a w => (inr a, w).
#[local] Instance M_bind : MBind M := fun A B f m w =>
  match m w with
  | (inl e, w') => (inl e, w')
  | (inr a, w') => f a w'
  end.

Definition get : M World := fun w => (inr w, w).
Definition throw {A} (e : JSValue) : M A := fun w => (inl e, w).
Definition try_catch {A} (m : M A) (handler : JSValue -> M A) : M A := fun w =>
  match m w with
  | (inl e, w') => handler e w'
  | r => r
  end.
Definition lift {A} (r : Res A) : M A := fun w => (r, w).

(** Assignments to one part of the world. *)
Definition log (evs : list Event) (w : World) : World :=
  {| state := state w; cache := cache w; threadPool := threadPool w;
     fs := fs w; trace := trace w ++ evs |}.

Definition with_started (b : bool) (w : World) : World :=
  {| state := {| started := b;
                 initialBuildCompleted := initialBuildCompleted (state w) |};
     cache := cache w; threadPool := threadPool w; fs := fs w; trace := trace w |}.

Definition with_initialBuildCompleted (b : bool) (w : World) : World :=
  {| state := {| started := started (state w); initialBuildCompleted := b |};
     cache := cache w; threadPool := threadPool w; fs := fs w; trace := trace w |}.

Definition with_cache (c : C) (w : World) : World :=
  {| state := state w; cache := c; threadPool := threadPool w;
     fs := fs w; trace := trace w |}.

Definition with_threadPool (p : option ThreadPool) (w : World) : World :=
  {| state := state w; cache := cache w; threadPool := p;
     fs := fs w; trace := trace w |}.

Definition with_fs (f : F) (w : World) : World :=
  {| state := state w; cache := cache w; threadPool := threadPool w;
     fs := f; trace := trace w |}.

Definition emit (ev : Event) : M unit := fun w => (inr tt, log [ev] w).
Definition set_started (b : bool) : M unit := fun w => (inr tt, with_started b w).
Definition set_initialBuildCompleted (b : bool) : M unit :=
  fun w => (inr tt, with_initialBuildCompleted b w).
Definition set_cache (c : C) : M unit := fun w => (inr tt, with_cache c w).
Definition set_threadPool (p : option ThreadPool) : M unit :=
  fun w => (inr tt, with_threadPool p w).
Definition set_fs (f : F) : M unit := fun w => (inr tt, with_fs f w).

(** *** Calls on the collaborators *)

Definition writeFileSync (path data : string) : M unit :=
  emit (FsWrite path data);;
  w ← get;
  f ← lift (fs_write (fs w) path data);
  set_fs f.

Definition readFileSync (path : string) : M string :=
  w ← get; lift (fs_read (fs w) path).

(** [done(...)]: the host's callback. *)
Definition done (args : list JSValue) : M unit := emit (Done args).

Definition cache_load_call : M unit :=
  w ← get; emit CacheLoad;; set_cache (cache_load (cache w)).

Definition cache_save_call : M unit :=
  w ← get; emit CacheSave;; set_cache (cache_save (cache w)).

Definition cache_invalidateEntryFor (filePath : string) : M unit :=
  w ← get; emit (CacheInvalidate filePath);;
  set_cache (invalidateEntryFor (cache w) filePath).

Definition cache_updateMTimeFor (filePath : string)
           (compiledPath error : option string) : M unit :=
  w ← get; emit (CacheUpdate filePath compiledPath error);;
  set_cache (updateMTimeFor (cache w) filePath compiledPath error).

(** *** [apply]: the handlers *)

(** [start(_, done)] up to the call of [threadPool.start]. *)
Definition start : M unit :=
  w ← get;
  if started (state w) || initialBuildCompleted (state w) then done []
  else
    try_catch
      (data ← lift (serialize (Config.loaders config) (extractOptions compilerOptions));
       writeFileSync (Config.optionsPath config) data;;
       mret true)
      (fun e => done [e];; mret false)
    ≫= fun written : bool =>
    if written then
      emit (PoolCreate config);;
      set_threadPool (Some {| pool_config := config |});;
      (if Config.cache config then cache_load_call else mret tt);;
      emit PoolStart
    else mret tt.

(** The callback given to [threadPool.start]. *)
Definition start_callback (err : JSValue) : M unit :=
  if truthy err then done [err]
  else set_started true;; done [].

Definition teardown : M unit :=
  w ← get;
  if started (state w) then
    (if Config.cache config then cache_save_call else mret tt);;
    (match threadPool w with
     | Some _ => emit PoolStop
     | None => mret tt
     end);;
    set_started false
  else mret tt.

(** The ['done'] handler. *)
Definition on_done : M unit :=
  teardown;; set_initialBuildCompleted true.

(** ['failed-module'] is hooked to [teardown] when [compiler.options.bail]
    holds. *)
Definition on_failed_module : M unit :=
  if truthy (default VUndefined (compilerOptions !! "bail")) then teardown else mret tt.

Definition inWatchMode : bool := truthy (default VUndefined (compilerOptions !! "watch")).

(** [process.on('exit', teardown)] is installed in watch mode unless
    [installExitHandler] is [false]. *)
Definition on_exit : M unit :=
  if inWatchMode && Config.installExitHandler config then teardown else mret tt.

(** *** Compiling one file *)

(** The callback given to the worker's [compile].  It closes over the
    arguments of [compileInBackground]. *)
Definition worker_callback (source : string) (map : JSValue) (filePath : string)
           (result : WorkerResult) : M unit :=
  contents ← readFileSync (compiledPath result);
  if negb (success result) then
    cache_updateMTimeFor filePath None (Some contents);;
    done [VStr contents]
  else
    cache_updateMTimeFor filePath (Some (compiledPath result)) None;;
    done [VNull; VStr contents; VNull].

Definition compileInBackground (source : string) (map : JSValue) (filePath : string)
  : M unit :=
  w ← get;
  if negb (hasChanged (cache w) filePath) && negb (hasErrored (cache w) filePath) then
    contents ← readFileSync (getCompiledPath (cache w) filePath);
    done [VNull; VStr contents]
  else
    cache_invalidateEntryFor filePath;;
    match threadPool w with
    | None => throw (VError "TypeError"
                       "Cannot read properties of undefined (reading 'getThread')")
    | Some _ => emit (PoolCompile filePath)
    end.

(** The callback given to [applyLoaders]. *)
Definition loaders_callback (filePath : string) (err : JSValue) (result : LoaderResult.t)
  : M unit :=
  if truthy err then done [err]
  else
    let compiledPath :=
      path_resolve (Config.tempDir config) (generateCompiledPath filePath) in
    writeFileSync compiledPath (LoaderResult.code result);;
    cache_updateMTimeFor filePath (Some compiledPath) None;;
    done [VNull; VStr (LoaderResult.code result); LoaderResult.map result].

Definition compileInForeground (source : string) (map : JSValue) (filePath : string)
  : M unit :=
  cache_invalidateEntryFor filePath;;
  emit (ApplyLoaders source map filePath);;
  match applyLoaders (Config.loaders config) compilerOptions source map filePath with
  | LoaderThrows e => throw e
  | LoaderCallsBack err result => loaders_callback filePath err result
  | LoaderDefers => mret tt
  end.

Definition compile (source : string) (map : JSValue) (filePath : string) : M unit :=
  w ← get;
  if initialBuildCompleted (state w) then compileInForeground source map filePath
  else compileInBackground source map filePath.

Definition isAcceptingSyncRequests : M bool :=
  w ← get; mret (initialBuildCompleted (state w)).

(** *** The plugin driven by its environment *)

(** What the host, the pool and the pipeline can do to the plugin. *)
Inductive HostEvent : Type :=
| Run
| WatchRun
| PoolStarted (err : JSValue)
| FailedModule
| BuildDone
| ProcessExit
| Compile (source : string) (map : JSValue) (filePath : string)
| WorkerDone (source : string) (map : JSValue) (filePath : string) (result : WorkerResult)
| LoadersDone (filePath : string) (err : JSValue) (result : LoaderResult.t).

Definition handle (ev : HostEvent) : M unit :=
  match ev with
  | Run | WatchRun => start
  | PoolStarted err => start_callback err
  | FailedModule => on_failed_module
  | BuildDone => on_done
  | ProcessExit => on_exit
  | Compile source map filePath => compile source map filePath
  | WorkerDone source map filePath result => worker_callback source map filePath result
  | LoadersDone filePath err result => loaders_callback filePath err result
  end.

(** The world after a sequence of events; an exception ends the handler
    that threw, not the process. *)
Definition run_events (evs : list HostEvent) (w : World) : World :=
  foldl (fun w ev => (handle ev w).2) w evs.

(** A freshly constructed plugin. *)
Definition initial (c : C) (f : F) : World :=
  {| state := {| started := false; initialBuildCompleted := false |};
     cache := c; threadPool := None; fs := f; trace := [] |}.

(** A callback fires only for a call that was made: the pool reports
    readiness after [threadPool.start], a worker answers a dispatched
    compile, the pipeline answers an [applyLoaders] call.  The host's own
    events can come at any time. *)
Definition enabled (ev : HostEvent) (w : World) : Prop :=
  match ev with
  | PoolStarted _ => PoolStart ∈ trace w
  | WorkerDone _ _ filePath _ => PoolCompile filePath ∈ trace w
  | LoadersDone filePath _ _ =>
      exists source map, ApplyLoaders source map filePath ∈ trace w
  | _ => True
  end.

(** The pool object exists once [threadPool.start] was called and while
    the plugin counts as started. *)
Definition pool_inv (w : World) : Prop :=
  (PoolStart ∈ trace w -> is_Some (threadPool w))
  /\ (started (state w) = true -> is_Some (threadPool w)).

(** The worlds a plugin can be in. *)
Inductive reachable : World -> Prop :=
| reachable_initial (c : C) (f : F) : reachable (initial c f)
| reachable_step (w : World) (ev : HostEvent) :
    reachable w -> enabled ev w -> reachable (handle ev w).2.

End Engine.

(* ===================================================================== *)
(** ** Simple collaborators, for running the plugin on examples *)
(* ===================================================================== *)

(** A file system in memory: the files, and the paths that cannot be
    written. *)
Record MemFS : Type := { files : gmap string string; locked : list string }.

#[export] Instance MemFS_FileSystem : FileSystem MemFS := {
  fs_read f path :=
    match files f !! path with
    | Some data => inr data
    | None => inl (VError "Error" ("ENOENT: no such file or directory, open '" ++ path ++ "'"))
    end;
  fs_write f path data :=
    if existsb (String.eqb path) (locked f)
    then inl (VError "Error" ("EACCES: permission denied, open '" ++ path ++ "'"))
    else inr {| files := <[path := data]> (files f); locked := locked f |}
}.

(** Modelled from the spec: the cache collaborator ([HappyFSCache.js] is not
    among the modelled files).  "Persistent mapping from file identity to
    {compiled-artifact location, error flag}; exposes load/save,
    change-detection, invalidate, and update operations."  A path without
    an entry counts as changed; how a present entry is compared with the
    file on disk is the collaborator's business and is a flag here. *)
Record CacheEntry : Type := {
  entry_compiledPath : option string;
  entry_error : option string;
  entry_stale : bool
}.

#[export] Instance MemCache_FSCache : FSCache (gmap string CacheEntry) := {
  cache_load c := c;
  cache_save c := c;
  hasChanged c filePath :=
    match c !! filePath with Some e => entry_stale e | None => true end;
  hasErrored c filePath :=
    match c !! filePath with
    | Some e => match entry_error e with Some _ => true | None => false end
    | None => false
    end;
  getCompiledPath c filePath :=
    match c !! filePath with
    | Some e => default "" (entry_compiledPath e)
    | None => ""
    end;
  invalidateEntryFor c filePath := delete filePath c;
  updateMTimeFor c filePath compiledPath error :=
    <[filePath := {| entry_compiledPath := compiledPath; entry_error := error;
                     entry_stale := false |}]> c
}.

(** A small environment: one loader, caching on, watch mode, one file
    compiled before. *)
Definition ex_config : Config.t :=
  {| Config.cache := true;
     Config.optionsPath := ".happypack/options--1.json";
     Config.tempDir := ".happypack";
     Config.loaders := VArr [VObj [("path", VStr "x")]];
     Config.installExitHandler := true;
     Config.threads := Fin 3 |}.

(** The same configuration with caching off. *)
Definition ex_config_nocache : Config.t :=
  {| Config.cache := false;
     Config.optionsPath := ".happypack/options--1.json";
     Config.tempDir := ".happypack";
     Config.loaders := VArr [VObj [("path", VStr "x")]];
     Config.installExitHandler := true;
     Config.threads := Fin 3 |}.

Definition ex_compilerOptions : gmap string JSValue :=
  <["watch" := VBool true]> (<["plugins" := VArr []]> ∅).

Definition ex_serialize (loaders : JSValue) (options : gmap string JSValue) : Res string :=
  inr "{}".

Definition ex_path_resolve (dir file : string) : string := dir ++ "/" ++ file.

Definition ex_generateCompiledPath (filePath : string) : string := "s--" ++ filePath.

Definition ex_applyLoaders (loaders : JSValue) (options : gmap string JSValue)
           (source : string) (map : JSValue) (filePath : string) : LoaderReply :=
  LoaderCallsBack (VError "SyntaxError" "Unexpected token")
                  {| LoaderResult.code := ""; LoaderResult.map := VUndefined |}.

Definition ex_fs : MemFS :=
  {| files := <[".happypack/s--a.js" := "compiled a"]> ∅; locked := [] |}.

Definition ex_cache : gmap string CacheEntry :=
  <["a.js" := {| entry_compiledPath := Some ".happypack/s--a.js";
                 entry_error := None; entry_stale := false |}]> ∅.

Definition ex_world : World (F := MemFS) (C := gmap string CacheEntry) :=
  initial ex_cache ex_fs.

(** The same plugin when the artifact on disk is a worker's error output. *)
Definition ex_fs_failed : MemFS :=
  {| files := <[".happypack/s--a.js" := "SyntaxError: bad"]> ∅; locked := [] |}.

Definition ex_world_failed : World (F := MemFS) (C := gmap string CacheEntry) :=
  initial ex_cache ex_fs_failed.

Definition ex_failed_result : WorkerResult :=
  {| success := false; compiledPath := ".happypack/s--a.js" |}.

Definition ex_handle :=
  handle (F := MemFS) (C := gmap string CacheEntry)
         ex_config ex_compilerOptions ex_serialize ex_path_resolve
         ex_generateCompiledPath ex_applyLoaders.

(** The example plugin after the build began, after the pool reported
    ready, and after the build finished. *)
Definition ex_begun : World := (ex_handle Run ex_world).2.
Definition ex_started : World := (ex_handle (PoolStarted VUndefined) ex_begun).2.
Definition ex_finished : World := (ex_handle BuildDone ex_started).2.

(** The scenario configuration [{loaders:[{path:"x"}], threads:2.4}]; the
    second form carries the double that the literal 2.4 denotes. *)
Definition cfg_2_4 : JSObject :=
  [ ("loaders", VArr [VObj [("path", VStr "x")]]); ("threads", VNum (Fin (24 # 10))) ].

Definition cfg_2_4_double : JSObject :=
  [ ("loaders", VArr [VObj [("path", VStr "x")]]);
    ("threads", VNum (Fin (5404319552844595 # 2251799813685248))) ].

Definition cfg_no_threads : JSObject :=
  [ ("loaders", VArr [VObj [("path", VStr "x")]]) ].

Definition cfg_nan : JSObject :=
  [ ("loaders", VArr [VObj [("path", VStr "x")]]); ("threads", VNum NaN) ].

(* ===================================================================== *)
(** * Properties *)
(* ===================================================================== *)

Local Open Scope list_scope.

(** ** The configuration snapshot *)

Lemma indexOf_from_spec (l : list string) (key : string) (i : Z) :
  (0 <= i)%Z ->
  if decide (key ∈ l) then (i <= indexOf_from i l key)%Z
  else indexOf_from i l key = (-1)%Z.
Proof.
  revert i. induction l as [|x l IH]; intros i Hi; cbn [indexOf_from].
  - destruct (decide (key ∈ [])) as [Hin|]; [|done]. by apply elem_of_nil in Hin.
  - destruct (String.eqb_spec x key) as [->|Hne].
    + destruct (decide (key ∈ key :: l)) as [|Hin]; [apply Z.le_refl|].
      exfalso. apply Hin. left.
    + specialize (IH (i + 1)%Z ltac:(lia)).
      destruct (decide (key ∈ l)) as [Hin|Hnin];
        destruct (decide (key ∈ x :: l)) as [Hin'|Hin'].
      * lia.
      * exfalso. apply Hin'. by right.
      * apply elem_of_cons in Hin' as [->|?]; done.
      * done.
Qed.

Lemma allowed_key_spec (key : string) :
  (indexOf SERIALIZABLE_OPTIONS key >? -1)%Z = bool_decide (key ∈ SERIALIZABLE_OPTIONS).
Proof.
  unfold indexOf.
  pose proof (indexOf_from_spec SERIALIZABLE_OPTIONS key 0 ltac:(lia)) as H.
  destruct (decide (key ∈ SERIALIZABLE_OPTIONS)) as [Hin|Hnin].
  - rewrite bool_decide_eq_true_2 by done. apply Z.gtb_lt. lia.
  - rewrite bool_decide_eq_false_2 by done. rewrite H. reflexivity.
Qed.

Section ExtractOptionsFacts.
Context {V : Type}.
Implicit Types (options hsh : gmap string V) (keys : list string).

Lemma extract_step_lookup options hsh (key k : string) :
  extract_step options hsh key !! k =
  if decide (k = key ∧ k ∈ SERIALIZABLE_OPTIONS ∧ is_Some (options !! k))
  then options !! k else hsh !! k.
Proof.
  unfold extract_step. rewrite allowed_key_spec.
  destruct (decide (k = key ∧ k ∈ SERIALIZABLE_OPTIONS ∧ is_Some (options !! k)))
    as [(-> & Hal & [v Hv])|Hn].
  - rewrite bool_decide_eq_true_2 by done. rewrite Hv. apply lookup_insert_eq.
  - case_bool_decide as Hal; [|done].
    destruct (options !! key) as [v|] eqn:Hv; [|done].
    destruct (decide (key = k)) as [->|Hne].
    + exfalso. apply Hn. rewrite Hv. eauto.
    + by rewrite lookup_insert_ne.
Qed.

Lemma extract_fold_lookup options keys hsh (k : string) :
  foldl (extract_step options) hsh keys !! k =
  if decide (k ∈ keys ∧ k ∈ SERIALIZABLE_OPTIONS ∧ is_Some (options !! k))
  then options !! k else hsh !! k.
Proof.
  revert hsh. induction keys as [|key keys IH]; intros hsh; cbn [foldl].
  - destruct (decide (k ∈ [] ∧ _)) as [(Hin & _)|]; [|done].
    by apply elem_of_nil in Hin.
  - rewrite IH, extract_step_lookup.
    destruct (decide (k ∈ keys ∧ k ∈ SERIALIZABLE_OPTIONS ∧ is_Some (options !! k)))
      as [(Hin & Hal & Hs)|Hn];
      destruct (decide (k ∈ key :: keys ∧ k ∈ SERIALIZABLE_OPTIONS ∧ is_Some (options !! k)))
      as [(Hin' & Hal' & Hs')|Hn'];
      destruct (decide (k = key ∧ k ∈ SERIALIZABLE_OPTIONS ∧ is_Some (options !! k)))
      as [(Heq & Hal'' & Hs'')|Hn'']; try done.
    all: exfalso;
      first [ apply Hn'; split; [by right | done]
            | apply Hn'; subst k; split; [left | done]
            | apply elem_of_cons in Hin' as [->|Hin']; [by apply Hn'' | by apply Hn] ].
Qed.

Lemma extractOptions_lookup options (k : string) :
  extractOptions options !! k =
  if decide (k ∈ SERIALIZABLE_OPTIONS) then options !! k else None.
Proof.
  unfold extractOptions.
  rewrite extract_fold_lookup, lookup_empty.
  destruct (decide (k ∈ SERIALIZABLE_OPTIONS)) as [Hal|Hnal];
    destruct (decide (k ∈ (map_to_list options).*1 ∧ _)) as [(Hin & Hal' & Hs)|Hn];
    try done.
  destruct (options !! k) as [v|] eqn:Hv; [|done].
  exfalso. apply Hn. split; [|split; [done | eauto]].
  apply list_elem_of_fmap. exists (k, v). split; [done | ].
  by apply elem_of_map_to_list.
Qed.
End ExtractOptionsFacts.

(** C8. [extractOptions] computes, from any options object, the mapping
    that keeps exactly the entries whose key is in [SERIALIZABLE_OPTIONS],
    each with the value it has in the input: the result is the input
    filtered by the allow-list, its key set is within the allow-list, and it
    is a sub-map of the input.  Extra keys of the input never show. *)
Theorem extractOptions_allow_list {V : Type} (options : gmap string V) :
  extractOptions options = filter (fun kv => kv.1 ∈ SERIALIZABLE_OPTIONS) options
  ∧ dom (extractOptions options) ⊆ list_to_set SERIALIZABLE_OPTIONS
  ∧ extractOptions options ⊆ options.
Proof.
  assert (Heq : extractOptions options
                = filter (fun kv => kv.1 ∈ SERIALIZABLE_OPTIONS) options).
  { apply map_eq; intros k. rewrite extractOptions_lookup.
    destruct (decide (k ∈ SERIALIZABLE_OPTIONS)) as [Hal|Hnal].
    - destruct (options !! k) as [v|] eqn:Hv.
      + symmetry. by apply map_lookup_filter_Some.
      + symmetry. apply map_lookup_filter_None. by left.
    - symmetry. apply map_lookup_filter_None. right. intros v _. exact Hnal. }
  split; [exact Heq|]. split.
  - intros k Hk. apply elem_of_dom in Hk as [v Hv].
    rewrite extractOptions_lookup in Hv.
    destruct (decide (k ∈ SERIALIZABLE_OPTIONS)); [|done].
    by apply elem_of_list_to_set.
  - rewrite Heq. apply map_filter_subseteq.
Qed.

(** ** Construction: the [threads] option *)

Lemma own_None_keys {A} (o : list (string * A)) (key : string) :
  own o key = None <-> key ∉ Object_keys o.
Proof.
  unfold Object_keys. induction o as [|[k v] o IH]; cbn [own fmap list_fmap].
  - split; [intros _ Hin; by apply elem_of_nil in Hin | done].
  - cbn [fst]. destruct (String.eqb_spec k key) as [->|Hne].
    + split; [done | intros Hn; exfalso; apply Hn; left].
    + rewrite IH. split.
      * intros Hn Hin. apply elem_of_cons in Hin as [->|Hin]; [done | by apply Hn].
      * intros Hn Hin. apply Hn. by right.
Qed.

Section ParserFacts.
Variables (params : JSObject) (displayName : string).

Lemma parseKey_other schema hsh hsh' (key k : string) :
  OptionParser.parseKey params schema displayName hsh key = inr hsh' ->
  k <> key -> hsh' !! k = hsh !! k.
Proof.
  unfold OptionParser.parseKey. intros Hp Hne.
  destruct (hasOwnProperty "schema" schema key) as [e|[]]; [done| |done].
  destruct (own schema key) as [spec|]; [|done].
  destruct (match OptionParser.validate spec with Some _ => _ | None => _ end);
    [done|].
  destruct (match OptionParser.type spec with Some _ => _ | None => _ end);
    [done|].
  destruct (OptionParser.has_default spec), (prop params key);
    injection Hp as <-; by rewrite lookup_insert_ne.
Qed.

Lemma parseKey_threads hsh hsh' :
  OptionParser.parseKey params happy_schema displayName hsh "threads" = inr hsh' ->
  exists n, prop params "threads" = VNum n /\ hsh' !! "threads" = Some (VNum n).
Proof.
  unfold OptionParser.parseKey.
  change (hasOwnProperty "schema" happy_schema "threads") with (@inr JSValue bool true).
  change (own happy_schema "threads")
    with (Some (OptionParser.Build_Spec (Some "number") (Some (VNum (Fin 3))) None false)).
  cbn [OptionParser.validate OptionParser.type].
  destruct (prop params "threads") as [| |b|n|s|xs|ps|nm msg]; try done.
  intros Hp. exists n. split; [done|].
  destruct (OptionParser.has_default _); injection Hp as <-; apply lookup_insert_eq.
Qed.

Lemma reduceKeys_threads (keys : list string) hsh hsh' :
  OptionParser.reduceKeys params happy_schema displayName hsh keys = inr hsh' ->
  ("threads" ∈ keys ->
   exists n, prop params "threads" = VNum n /\ hsh' !! "threads" = Some (VNum n))
  /\ ("threads" ∉ keys -> hsh' !! "threads" = hsh !! "threads").
Proof.
  revert hsh. induction keys as [|key keys IH]; intros hsh; cbn [OptionParser.reduceKeys].
  - intros [= <-]. split; [intros Hin; by apply elem_of_nil in Hin | done].
  - destruct (OptionParser.parseKey params happy_schema displayName hsh key)
      as [e|hsh1] eqn:Hkey; [done|].
    intros Hrest. destruct (IH _ Hrest) as [IHin IHout].
    destruct (decide ("threads" ∈ keys)) as [Hin|Hnin].
    + split; [intros _; by apply IHin | ].
      intros Hn. exfalso. apply Hn. by right.
    + destruct (decide (key = "threads")) as [->|Hne].
      * split; [|intros Hn; exfalso; apply Hn; left].
        intros _. rewrite (IHout Hnin). by apply parseKey_threads with hsh.
      * split.
        -- intros Hin. apply elem_of_cons in Hin as [Heq|Hin]; [by subst key | done].
        -- intros _. rewrite (IHout Hnin).
           apply (parseKey_other _ _ _ _ _ Hkey). congruence.
Qed.

(** After a successful parse, [threads] holds the number the user gave,
    or the default 3 when the user gave none. *)
Lemma parsed_threads_is_number config :
  OptionParser.parseAndValidateOptions params happy_schema displayName = inr config ->
  exists n, config !! "threads" = Some (VNum n)
            /\ match own params "threads" with
               | Some v => v = VNum n
               | None => n = Fin 3
               end.
Proof.
  unfold OptionParser.parseAndValidateOptions.
  destruct (OptionParser.checkRequired _ _ _); [done|].
  intros Hred. apply reduceKeys_threads in Hred as [Hin Hout].
  destruct (own params "threads") as [v|] eqn:Hown.
  - assert (Hk : "threads" ∈ Object_keys params).
    { destruct (decide ("threads" ∈ Object_keys params)) as [|Hn]; [done|].
      apply own_None_keys in Hn. congruence. }
    destruct (Hin Hk) as (n & Hprop & Hcfg). exists n. split; [done|].
    unfold prop in Hprop. by rewrite Hown in Hprop.
  - exists (Fin 3). split; [|done].
    rewrite Hout by by apply own_None_keys. reflexivity.
Qed.
End ParserFacts.

Lemma HappyPlugin_threads (userConfig : JSObject) (id : string) config :
  HappyPlugin userConfig id = inr config ->
  exists n, config !! "threads" = Some (VNum (Math_max (Math_ceil n) (Fin 1)))
            /\ match own userConfig "threads" with
               | Some v => v = VNum n
               | None => n = Fin 3
               end.
Proof.
  unfold HappyPlugin.
  destruct (OptionParser.parseAndValidateOptions userConfig happy_schema id)
    as [e|parsed] eqn:Hparse; [done|].
  destruct (parsed_threads_is_number _ _ _ Hparse) as (n & Hn & Hown).
  rewrite Hn. intros [= <-]. exists n. split; [apply lookup_insert_eq | done].
Qed.

Lemma max_ceil_finite (q : Q) :
  Math_max (Math_ceil (Fin q)) (Fin 1) = Fin (inject_Z (Z.max (Qceiling q) 1)).
Proof.
  cbn [Math_ceil Math_max]. unfold Qle_bool, inject_Z. cbn [Qnum Qden].
  rewrite !Z.mul_1_r.
  destruct (Z.leb_spec (Qceiling q) 1) as [Hle|Hgt].
  - rewrite Z.max_r by done. reflexivity.
  - rewrite Z.max_l by lia. reflexivity.
Qed.

(** C9 (as amended). Construction stores
    [Math.max(Math.ceil(threads), 1)] under [threads] for every number the
    user gives; for every finite number this is the integer
    [max(ceil(threads), 1)], which is at least 1.  The configuration
    [{loaders:[{path:"x"}], threads:2.4}] is accepted and yields 3, and when
    the option is absent the result is the default 3. *)
Theorem threads_coercion :
  (forall (userConfig : JSObject) (id : string) config (n : JSNum),
      own userConfig "threads" = Some (VNum n) ->
      HappyPlugin userConfig id = inr config ->
      config !! "threads" = Some (VNum (Math_max (Math_ceil n) (Fin 1)))
      /\ forall q : Q, n = Fin q ->
           config !! "threads" = Some (VNum (Fin (inject_Z (Z.max (Qceiling q) 1))))
           /\ (1 <= Z.max (Qceiling q) 1)%Z)
  /\ (forall id : string,
         exists config, HappyPlugin cfg_2_4 id = inr config
                        /\ config !! "threads" = Some (VNum (Fin 3)))
  /\ (forall id : string,
         exists config, HappyPlugin cfg_2_4_double id = inr config
                        /\ config !! "threads" = Some (VNum (Fin 3)))
  /\ (forall (userConfig : JSObject) (id : string) config,
         own userConfig "threads" = None ->
         HappyPlugin userConfig id = inr config ->
         config !! "threads" = Some (VNum (Fin 3))).
Proof.
  split; [|split; [|split]].
  - intros userConfig id config n Hown Hbuild.
    destruct (HappyPlugin_threads _ _ _ Hbuild) as (n' & Hcfg & Hn').
    rewrite Hown in Hn'. injection Hn' as <-. split; [done|].
    intros q ->. rewrite Hcfg, max_ceil_finite. split; [done | lia].
  - intros id. eexists. split; [vm_compute; reflexivity | vm_compute; reflexivity].
  - intros id. eexists. split; [vm_compute; reflexivity | vm_compute; reflexivity].
  - intros userConfig id config Hown Hbuild.
    destruct (HappyPlugin_threads _ _ _ Hbuild) as (n' & Hcfg & Hn').
    rewrite Hown in Hn'. subst n'. rewrite Hcfg. reflexivity.
Qed.

Lemma threads_coercion_witness :
  exists config,
    HappyPlugin cfg_2_4 "1" = inr config
    /\ config !! "threads" = Some (VNum (Fin 3)).
Proof.
  eexists. split; [vm_compute; reflexivity|].
  apply (proj1 threads_coercion cfg_2_4 "1" _ (Fin (24 # 10)));
    [reflexivity | vm_compute; reflexivity].
Defined.

(** C9 as stated fails: [NaN] is a number, the parser accepts it, and
    [Math.max(Math.ceil(NaN), 1)] is [NaN], which is not an integer. *)
Lemma threads_nan_not_integer :
  ~ (forall (userConfig : JSObject) (id : string) config (n : JSNum),
        own userConfig "threads" = Some (VNum n) ->
        HappyPlugin userConfig id = inr config ->
        exists z : Z, (1 <= z)%Z
                      /\ config !! "threads" = Some (VNum (Fin (inject_Z z)))).
Proof.
  intros Hclaim.
  destruct (HappyPlugin cfg_nan "1") as [e|config] eqn:Hbuild;
    [vm_compute in Hbuild; discriminate|].
  destruct (Hclaim cfg_nan "1" config NaN eq_refl Hbuild) as (z & _ & Hz).
  destruct (HappyPlugin_threads _ _ _ Hbuild) as (n & Hnan & Hn).
  cbn in Hn. injection Hn as <-. rewrite Hnan in Hz. discriminate.
Qed.

(** ** Lifecycle *)

(** Unfolds a handler down to the world it returns. *)
Ltac unfold_engine :=
  unfold handle, on_done, on_exit, on_failed_module, compile, compileInForeground,
    compileInBackground, loaders_callback, worker_callback, start, start_callback,
    teardown, cache_updateMTimeFor, cache_invalidateEntryFor, cache_save_call,
    cache_load_call, done, readFileSync, writeFileSync, try_catch, lift, throw, get,
    emit, set_started, set_initialBuildCompleted, set_cache, set_threadPool, set_fs,
    mbind, M_bind, mret, M_ret.

Section WorldFacts.
Context {F C : Type}.
Implicit Types (w : @World F C) (evs : list Event).

Lemma log_nil w : log [] w = w.
Proof. destruct w. unfold log; cbn. by rewrite app_nil_r. Qed.

Lemma log_log evs1 evs2 w : log evs2 (log evs1 w) = log (evs1 ++ evs2) w.
Proof. unfold log; cbn. by rewrite app_assoc. Qed.
End WorldFacts.

Section LifecycleFacts.
Context {F C : Type} `{!FileSystem F} `{!FSCache C}.
Variable config : Config.t.
Variable compilerOptions : gmap string JSValue.
Variable serialize : JSValue -> gmap string JSValue -> Res string.
Implicit Types (w : @World F C).

Lemma start_noop w :
  started (state w) || initialBuildCompleted (state w) = true ->
  start config compilerOptions serialize w = (inr tt, log [Done []] w).
Proof. intros Hbusy. unfold_engine. by rewrite Hbusy. Qed.

Lemma teardown_stopped w :
  started (state w) = false -> teardown config w = (inr tt, w).
Proof. intros Hs. unfold_engine. by rewrite Hs. Qed.

Lemma teardown_started w :
  started (state w) = true ->
  teardown config w =
  (inr tt,
   {| state := {| started := false;
                  initialBuildCompleted := initialBuildCompleted (state w) |};
      cache := if Config.cache config then cache_save (cache w) else cache w;
      threadPool := threadPool w;
      fs := fs w;
      trace := trace w ++ (if Config.cache config then [CacheSave] else [])
                       ++ (match threadPool w with
                           | Some _ => [PoolStop]
                           | None => []
                           end) |}).
Proof.
  intros Hs. unfold_engine. rewrite Hs.
  destruct (Config.cache config), (threadPool w) eqn:Hpool; cbn;
    unfold with_started, log, with_cache; cbn;
    rewrite ?Hpool, <- ?app_assoc, ?app_nil_r; reflexivity.
Qed.
End LifecycleFacts.

(** Closes an equation between two worlds built with the assignments. *)
Ltac world_eq :=
  cbn; unfold log, with_started, with_initialBuildCompleted, with_cache,
         with_threadPool, with_fs; cbn;
  rewrite <- ?app_assoc; cbn; reflexivity.

(** Case analysis on every test a handler makes, innermost test first. *)
Ltac crush_matches :=
  repeat (cbn;
          match goal with
          | |- context [match ?x with _ => _ end] =>
              lazymatch x with
              | context [match _ with _ => _ end] => fail
              | _ => destruct x eqn:?
              end
          end).

Section EngineFacts.
Context {F C : Type} `{!FileSystem F} `{!FSCache C}.
Variable config : Config.t.
Variable compilerOptions : gmap string JSValue.
Variable serialize : JSValue -> gmap string JSValue -> Res string.
Variable path_resolve : string -> string -> string.
Variable generateCompiledPath : string -> string.
Variable applyLoaders :
  JSValue -> gmap string JSValue -> string -> JSValue -> string -> LoaderReply.
Implicit Types (w : @World F C) (ev : HostEvent) (evs : list HostEvent).

Local Abbreviation handle_ :=
  (handle config compilerOptions serialize path_resolve generateCompiledPath applyLoaders).
Local Abbreviation run_events_ :=
  (run_events config compilerOptions serialize path_resolve generateCompiledPath
              applyLoaders).
Local Abbreviation reachable_ :=
  (reachable config compilerOptions serialize path_resolve generateCompiledPath
             applyLoaders).
Local Abbreviation start_ := (start config compilerOptions serialize).
Local Abbreviation compile_ :=
  (compile config compilerOptions path_resolve generateCompiledPath applyLoaders).
Local Abbreviation compileInForeground_ :=
  (compileInForeground config compilerOptions path_resolve generateCompiledPath
                       applyLoaders).
Local Abbreviation loaders_callback_ :=
  (loaders_callback config path_resolve generateCompiledPath).

Lemma run_events_cons ev evs w :
  run_events_ (ev :: evs) w = run_events_ evs (handle_ ev w).2.
Proof. reflexivity. Qed.

Lemma handle_pool_inv ev w :
  pool_inv w -> enabled ev w -> pool_inv (handle_ ev w).2.
Proof.
  intros [Htr Hst] Hen. unfold pool_inv.
  destruct ev; unfold_engine; cbn in Hen.
  all: crush_matches.
  all: cbn; split; intros Hx.
  all: repeat (rewrite ?elem_of_app, ?elem_of_cons, ?elem_of_nil in Hx).
  all: intuition (try discriminate; eauto; congruence).
Qed.

Lemma reachable_pool_inv w : reachable_ w -> pool_inv w.
Proof.
  induction 1 as [c f|w ev _ IH Hen].
  - split; cbn; [intros Hin; by apply elem_of_nil in Hin | done].
  - by apply handle_pool_inv.
Qed.

Lemma handle_keeps_initialBuildCompleted ev w :
  initialBuildCompleted (state w) = true ->
  initialBuildCompleted (state (handle_ ev w).2) = true.
Proof.
  intros Hflag. destruct ev; unfold_engine.
  all: crush_matches.
  all: cbn; congruence.
Qed.

Lemma handle_only_done_sets_flag ev w :
  ev <> BuildDone ->
  initialBuildCompleted (state (handle_ ev w).2) = initialBuildCompleted (state w).
Proof.
  intros Hne. destruct ev; try done; unfold_engine.
  all: crush_matches.
  all: cbn; congruence.
Qed.

Lemma on_done_sets_flag w :
  initialBuildCompleted (state (handle_ BuildDone w).2) = true.
Proof. unfold_engine. crush_matches; reflexivity. Qed.

Lemma run_events_keeps_flag evs w :
  initialBuildCompleted (state w) = true ->
  initialBuildCompleted (state (run_events_ evs w)) = true.
Proof.
  revert w. induction evs as [|ev evs IH]; intros w Hflag; [done|].
  rewrite run_events_cons. apply IH. by apply handle_keeps_initialBuildCompleted.
Qed.

Lemma run_events_without_done evs w :
  BuildDone ∉ evs ->
  initialBuildCompleted (state (run_events_ evs w)) = initialBuildCompleted (state w).
Proof.
  revert w. induction evs as [|ev evs IH]; intros w Hnin; [done|].
  rewrite run_events_cons, IH.
  - apply handle_only_done_sets_flag. intros ->. apply Hnin. left.
  - intros Hin. apply Hnin. by right.
Qed.

(** C2. The build-finished handler sets [initialBuildCompleted]; no
    handler ever clears it, so it stays set through any later sequence of
    events.  [compile] is [compileInForeground] whenever the flag is set
    and [compileInBackground] whenever it is not, for every path; and the
    flag is not set before the first build-finished event, because no
    other event changes it. *)
Theorem compile_routing :
  (forall w, initialBuildCompleted (state (handle_ BuildDone w).2) = true)
  /\ (forall evs w,
         initialBuildCompleted (state w) = true ->
         initialBuildCompleted (state (run_events_ evs w)) = true)
  /\ (forall w source map filePath,
         initialBuildCompleted (state w) = true ->
         compile_ source map filePath w = compileInForeground_ source map filePath w)
  /\ (forall w source map filePath,
         initialBuildCompleted (state w) = false ->
         compile_ source map filePath w = compileInBackground source map filePath w)
  /\ (forall evs w,
         BuildDone ∉ evs ->
         initialBuildCompleted (state (run_events_ evs w))
         = initialBuildCompleted (state w)).
Proof.
  split; [exact on_done_sets_flag|].
  split; [exact run_events_keeps_flag|].
  split; [|split; [|exact run_events_without_done]].
  - intros w source map filePath Hflag. unfold compile, get, mbind, M_bind.
    by rewrite Hflag.
  - intros w source map filePath Hflag. unfold compile, get, mbind, M_bind.
    by rewrite Hflag.
Qed.

(** C6. A build-begin event that finds the plugin started, or the initial
    build completed, only calls the readiness callback, with no argument:
    nothing is written, no pool is created or started, and state, cache,
    pool and file system are what they were. *)
Theorem start_when_busy_is_noop w :
  started (state w) = true \/ initialBuildCompleted (state w) = true ->
  start_ w = (inr tt, log [Done []] w)
  /\ handle_ Run w = (inr tt, log [Done []] w)
  /\ handle_ WatchRun w = (inr tt, log [Done []] w)
  /\ state (start_ w).2 = state w
  /\ cache (start_ w).2 = cache w
  /\ threadPool (start_ w).2 = threadPool w
  /\ fs (start_ w).2 = fs w
  /\ trace (start_ w).2 = trace w ++ [Done []].
Proof.
  intros Hbusy.
  assert (Heq : start_ w = (inr tt, log [Done []] w)).
  { apply start_noop. destruct Hbusy as [-> | ->]; [done | apply orb_true_r]. }
  cbn [handle]. rewrite Heq. done.
Qed.

(** C5. [teardown] never throws and a second [teardown] right after it
    changes nothing, so the cache is saved and the pool stopped at most
    once.  On a plugin that is not started it changes nothing; on a
    started one it saves the cache when caching is enabled, stops the pool
    object if there is one, and clears [started].  In every reachable
    world a started plugin has its pool object, so the pool is stopped. *)
Theorem teardown_idempotent w :
  exists w1,
    teardown config w = (inr tt, w1)
    /\ teardown config w1 = (inr tt, w1)
    /\ started (state w1) = false
    /\ (started (state w) = false -> w1 = w)
    /\ (started (state w) = true ->
        w1 = {| state := {| started := false;
                            initialBuildCompleted := initialBuildCompleted (state w) |};
                cache := if Config.cache config then cache_save (cache w) else cache w;
                threadPool := threadPool w;
                fs := fs w;
                trace := trace w
                           ++ (if Config.cache config then [CacheSave] else [])
                           ++ (match threadPool w with
                               | Some _ => [PoolStop]
                               | None => []
                               end) |})
    /\ (reachable_ w -> started (state w) = true ->
        trace w1 = trace w ++ (if Config.cache config then [CacheSave] else [])
                           ++ [PoolStop]).
Proof.
  destruct (started (state w)) eqn:Hs.
  - eexists. split; [by apply teardown_started|].
    split; [by apply teardown_stopped|].
    split; [done|]. split; [done|]. split; [done|].
    intros Hreach _. cbn.
    destruct (reachable_pool_inv w Hreach) as [_ Hpool].
    destruct (Hpool Hs) as [pool ->]. reflexivity.
  - exists w. split; [by apply teardown_stopped|].
    split; [by apply teardown_stopped|]. done.
Qed.

(** C1 (as amended). On a plugin that is neither started nor past its
    initial build, [start] first serializes and writes the configuration
    snapshot; if that throws, the error goes to the readiness callback and
    nothing else happens: no pool, not started.  Otherwise it creates the
    pool, then loads the cache if caching is enabled, then starts the
    pool, and returns without calling the readiness callback.  The pool's
    callback then either passes its error on, leaving the plugin not
    started, or sets [started] and calls the readiness callback. *)
Theorem start_sequence w :
  started (state w) = false ->
  initialBuildCompleted (state w) = false ->
  (forall e,
      serialize (Config.loaders config) (extractOptions compilerOptions) = inl e ->
      start_ w = (inr tt, log [Done [e]] w))
  /\ (forall data e,
         serialize (Config.loaders config) (extractOptions compilerOptions) = inr data ->
         fs_write (fs w) (Config.optionsPath config) data = inl e ->
         start_ w = (inr tt, log [FsWrite (Config.optionsPath config) data; Done [e]] w))
  /\ (forall data f',
         serialize (Config.loaders config) (extractOptions compilerOptions) = inr data ->
         fs_write (fs w) (Config.optionsPath config) data = inr f' ->
         start_ w =
         (inr tt,
          {| state := state w;
             cache := if Config.cache config then cache_load (cache w) else cache w;
             threadPool := Some {| pool_config := config |};
             fs := f';
             trace := trace w
                        ++ [FsWrite (Config.optionsPath config) data; PoolCreate config]
                        ++ (if Config.cache config then [CacheLoad] else [])
                        ++ [PoolStart] |}))
  /\ (forall w1 err,
         truthy err = true ->
         start_callback err w1 = (inr tt, log [Done [err]] w1))
  /\ (forall w1 err,
         truthy err = false ->
         start_callback err w1 = (inr tt, log [Done []] (with_started true w1))).
Proof.
  intros Hs Hflag.
  split; [|split; [|split; [|split]]].
  - intros e Hser. unfold_engine. rewrite Hs, Hflag, Hser. reflexivity.
  - intros data e Hser Hwrite. unfold_engine. rewrite Hs, Hflag, Hser. cbn.
    rewrite Hwrite. cbn. by rewrite log_log.
  - intros data f' Hser Hwrite. unfold_engine. rewrite Hs, Hflag, Hser. cbn.
    rewrite Hwrite. cbn.
    destruct (Config.cache config); cbn;
      unfold log, with_fs, with_threadPool, with_cache; cbn;
      rewrite <- ?app_assoc; reflexivity.
  - intros w1 err Herr. unfold_engine. by rewrite Herr.
  - intros w1 err Herr. unfold_engine. by rewrite Herr.
Qed.

End EngineFacts.

(** ** Compile routing *)

Section BackgroundFacts.
Context {F C : Type} `{!FileSystem F} `{!FSCache C}.
Implicit Types (w : @World F C) (result : WorkerResult).

Lemma compileInBackground_hit w source map filePath contents :
  hasChanged (cache w) filePath = false ->
  hasErrored (cache w) filePath = false ->
  fs_read (fs w) (getCompiledPath (cache w) filePath) = inr contents ->
  compileInBackground source map filePath w
  = (inr tt, log [Done [VNull; VStr contents]] w).
Proof. intros Hc He Hread. unfold_engine. rewrite Hc, He. cbn. by rewrite Hread. Qed.

Lemma compileInBackground_hit_unreadable w source map filePath e :
  hasChanged (cache w) filePath = false ->
  hasErrored (cache w) filePath = false ->
  fs_read (fs w) (getCompiledPath (cache w) filePath) = inl e ->
  compileInBackground source map filePath w = (inl e, w).
Proof. intros Hc He Hread. unfold_engine. rewrite Hc, He. cbn. by rewrite Hread. Qed.

Lemma compileInBackground_miss w source map filePath pool :
  hasChanged (cache w) filePath = true \/ hasErrored (cache w) filePath = true ->
  threadPool w = Some pool ->
  compileInBackground source map filePath w
  = (inr tt, log [CacheInvalidate filePath; PoolCompile filePath]
                 (with_cache (invalidateEntryFor (cache w) filePath) w)).
Proof.
  intros Hmiss Hpool. unfold_engine.
  assert (negb (hasChanged (cache w) filePath) && negb (hasErrored (cache w) filePath)
          = false) as ->.
  { destruct Hmiss as [-> | ->]; [done | apply andb_false_r]. }
  cbn. rewrite Hpool. world_eq.
Qed.

Lemma worker_callback_failure w source map filePath result contents :
  success result = false ->
  fs_read (fs w) (compiledPath result) = inr contents ->
  worker_callback source map filePath result w
  = (inr tt, log [CacheUpdate filePath None (Some contents); Done [VStr contents]]
                 (with_cache (updateMTimeFor (cache w) filePath None (Some contents)) w)).
Proof. intros Hs Hread. unfold_engine. cbn. rewrite Hread, Hs. world_eq. Qed.

Lemma worker_callback_success w source map filePath result contents :
  success result = true ->
  fs_read (fs w) (compiledPath result) = inr contents ->
  worker_callback source map filePath result w
  = (inr tt, log [CacheUpdate filePath (Some (compiledPath result)) None;
                  Done [VNull; VStr contents; VNull]]
                 (with_cache (updateMTimeFor (cache w) filePath
                                             (Some (compiledPath result)) None) w)).
Proof. intros Hs Hread. unfold_engine. cbn. rewrite Hread, Hs. world_eq. Qed.

Lemma worker_callback_unreadable w source map filePath result e :
  fs_read (fs w) (compiledPath result) = inl e ->
  worker_callback source map filePath result w = (inl e, w).
Proof. intros Hread. unfold_engine. cbn. by rewrite Hread. Qed.

Lemma compileInBackground_done_args w source map filePath args :
  Done args ∈ trace (compileInBackground source map filePath w).2 ->
  Done args ∈ trace w \/ exists contents, args = [VNull; VStr contents].
Proof.
  unfold_engine. crush_matches; cbn; intros Hin.
  all: repeat (rewrite ?elem_of_app, ?elem_of_cons, ?elem_of_nil in Hin).
  all: intuition (try discriminate; eauto).
  match goal with Heq : Done _ = Done _ |- _ => injection Heq as -> end. eauto.
Qed.

Lemma worker_callback_done_args w source map filePath result args :
  Done args ∈ trace (worker_callback source map filePath result w).2 ->
  Done args ∈ trace w
  \/ exists contents,
      (success result = false /\ args = [VStr contents])
      \/ (success result = true /\ args = [VNull; VStr contents; VNull]).
Proof.
  unfold_engine. crush_matches; cbn; intros Hin.
  all: repeat (rewrite ?elem_of_app, ?elem_of_cons, ?elem_of_nil in Hin).
  all: intuition (try discriminate; eauto).
  all: match goal with Heq : Done _ = Done _ |- _ => injection Heq as -> end.
  all: right; eexists.
  - left. split; [|reflexivity]. by destruct (success result).
  - right. split; [|reflexivity]. by destruct (success result).
Qed.
End BackgroundFacts.

Section CompileFacts.
Context {F C : Type} `{!FileSystem F} `{!FSCache C}.
Variable config : Config.t.
Variable compilerOptions : gmap string JSValue.
Variable path_resolve : string -> string -> string.
Variable generateCompiledPath : string -> string.
Variable applyLoaders :
  JSValue -> gmap string JSValue -> string -> JSValue -> string -> LoaderReply.
Implicit Types (w : @World F C) (result : LoaderResult.t).

Local Abbreviation compile_ :=
  (compile config compilerOptions path_resolve generateCompiledPath applyLoaders).
Local Abbreviation compileInForeground_ :=
  (compileInForeground config compilerOptions path_resolve generateCompiledPath
                       applyLoaders).
Local Abbreviation loaders_callback_ :=
  (loaders_callback config path_resolve generateCompiledPath).

(** The world in which the pipeline runs: the entry is invalidated, then
    [applyLoaders] is called. *)
Local Abbreviation invalidated source map filePath w :=
  (log [CacheInvalidate filePath; ApplyLoaders source map filePath]
       (with_cache (invalidateEntryFor (cache w) filePath) w)).

Lemma loaders_callback_error w filePath err result :
  truthy err = true ->
  loaders_callback_ filePath err result w = (inr tt, log [Done [err]] w).
Proof. intros Herr. unfold_engine. by rewrite Herr. Qed.

Lemma loaders_callback_success w filePath err result f' :
  truthy err = false ->
  fs_write (fs w)
           (path_resolve (Config.tempDir config) (generateCompiledPath filePath))
           (LoaderResult.code result) = inr f' ->
  loaders_callback_ filePath err result w
  = (inr tt,
     let compiledPath :=
       path_resolve (Config.tempDir config) (generateCompiledPath filePath) in
     {| state := state w;
        cache := updateMTimeFor (cache w) filePath (Some compiledPath) None;
        threadPool := threadPool w;
        fs := f';
        trace := trace w ++ [FsWrite compiledPath (LoaderResult.code result);
                             CacheUpdate filePath (Some compiledPath) None;
                             Done [VNull; VStr (LoaderResult.code result);
                                   LoaderResult.map result]] |}).
Proof. intros Herr Hwrite. unfold_engine. rewrite Herr. cbn. rewrite Hwrite. world_eq. Qed.

Lemma compileInForeground_throws w source map filePath e :
  applyLoaders (Config.loaders config) compilerOptions source map filePath
  = LoaderThrows e ->
  compileInForeground_ source map filePath w = (inl e, invalidated source map filePath w).
Proof. intros Hreply. unfold_engine. rewrite Hreply. world_eq. Qed.

Lemma compileInForeground_defers w source map filePath :
  applyLoaders (Config.loaders config) compilerOptions source map filePath
  = LoaderDefers ->
  compileInForeground_ source map filePath w = (inr tt, invalidated source map filePath w).
Proof. intros Hreply. unfold_engine. rewrite Hreply. world_eq. Qed.

Lemma compileInForeground_calls_back w source map filePath err result :
  applyLoaders (Config.loaders config) compilerOptions source map filePath
  = LoaderCallsBack err result ->
  compileInForeground_ source map filePath w
  = loaders_callback_ filePath err result (invalidated source map filePath w).
Proof.
  intros Hreply. unfold compileInForeground. unfold_engine. rewrite Hreply.
  destruct (truthy err); cbn; [world_eq|].
  destruct (fs_write _ _ _); world_eq.
Qed.

(** C7. [compileInForeground] invalidates the entry of the path, then
    calls the pipeline.  When the pipeline throws, the same value is
    thrown to the caller; when it calls back with an error, at once or
    later, the callback receives that error as its only argument.  In each
    case the cache is what the invalidation left: no update follows. *)
Theorem foreground_error_leaves_cache_invalidated w source map filePath :
  (forall e,
      applyLoaders (Config.loaders config) compilerOptions source map filePath
      = LoaderThrows e ->
      compileInForeground_ source map filePath w
      = (inl e, invalidated source map filePath w))
  /\ (forall err result,
         applyLoaders (Config.loaders config) compilerOptions source map filePath
         = LoaderCallsBack err result ->
         truthy err = true ->
         compileInForeground_ source map filePath w
         = (inr tt, log [Done [err]] (invalidated source map filePath w))
         /\ cache (compileInForeground_ source map filePath w).2
            = invalidateEntryFor (cache w) filePath)
  /\ (applyLoaders (Config.loaders config) compilerOptions source map filePath
      = LoaderDefers ->
      compileInForeground_ source map filePath w
      = (inr tt, invalidated source map filePath w)
      /\ forall w1 err result,
          truthy err = true ->
          loaders_callback_ filePath err result w1 = (inr tt, log [Done [err]] w1)
          /\ cache (loaders_callback_ filePath err result w1).2 = cache w1).
Proof.
  split; [|split].
  - intros e Hreply. by apply compileInForeground_throws.
  - intros err result Hreply Herr.
    rewrite (compileInForeground_calls_back _ _ _ _ _ _ Hreply).
    rewrite loaders_callback_error by done. done.
  - intros Hreply. split; [by apply compileInForeground_defers|].
    intros w1 err result Herr. rewrite loaders_callback_error by done. done.
Qed.

(** C3. For a path whose entry the cache reports neither changed nor
    errored, [compileInBackground] calls back with [(null, contents)],
    [contents] being the file at the cache's compiled path, and changes
    nothing else: no cache call, no dispatch to the pool.  The world is
    the same but for the recorded callback, so any number of [compile]
    calls before the initial build completes do the same. *)
Theorem background_cache_hit w source map filePath contents :
  hasChanged (cache w) filePath = false ->
  hasErrored (cache w) filePath = false ->
  fs_read (fs w) (getCompiledPath (cache w) filePath) = inr contents ->
  compileInBackground source map filePath w
  = (inr tt, log [Done [VNull; VStr contents]] w)
  /\ forall n : nat,
      initialBuildCompleted (state w) = false ->
      Nat.iter n (fun w' => (compile_ source map filePath w').2) w
      = log (replicate n (Done [VNull; VStr contents])) w.
Proof.
  intros Hc He Hread. split; [by apply compileInBackground_hit|].
  intros n Hflag. induction n as [|n IH].
  - cbn. by rewrite log_nil.
  - rewrite Nat.iter_succ, IH. unfold compile, get, mbind, M_bind. cbn [state log].
    rewrite Hflag. rewrite (compileInBackground_hit _ _ _ _ contents) by done.
    cbn [snd]. rewrite log_log.
    by rewrite <- replicate_S_end.
Qed.

End CompileFacts.

Section BackgroundClaims.
Context {F C : Type} `{!FileSystem F} `{!FSCache C}.
Variable config : Config.t.
Variable path_resolve : string -> string -> string.
Variable generateCompiledPath : string -> string.
Implicit Types (w : @World F C).

(** C4 (as amended). When the cache reports the entry changed or errored
    (and the pool object exists), [compileInBackground] invalidates the
    entry and then dispatches the path to a worker.  The worker's
    callback reads the artifact; on failure it calls
    [updateMTimeFor(filePath, null, contents)] with the artifact contents
    (the [source] argument plays no part) and passes the contents as the
    error; on success it calls [updateMTimeFor(filePath, compiledPath)]
    and passes [(null, contents, null)]. *)
Theorem background_recompile w source map filePath :
  hasChanged (cache w) filePath = true \/ hasErrored (cache w) filePath = true ->
  (forall pool,
      threadPool w = Some pool ->
      compileInBackground source map filePath w
      = (inr tt, log [CacheInvalidate filePath; PoolCompile filePath]
                     (with_cache (invalidateEntryFor (cache w) filePath) w)))
  /\ (forall w1 result contents,
         fs_read (fs w1) (compiledPath result) = inr contents ->
         success result = false ->
         worker_callback source map filePath result w1
         = (inr tt,
            log [CacheUpdate filePath None (Some contents); Done [VStr contents]]
                (with_cache (updateMTimeFor (cache w1) filePath None (Some contents))
                            w1)))
  /\ (forall w1 result contents,
         fs_read (fs w1) (compiledPath result) = inr contents ->
         success result = true ->
         worker_callback source map filePath result w1
         = (inr tt,
            log [CacheUpdate filePath (Some (compiledPath result)) None;
                 Done [VNull; VStr contents; VNull]]
                (with_cache (updateMTimeFor (cache w1) filePath
                                            (Some (compiledPath result)) None) w1)))
  /\ (forall w1 result source',
         worker_callback source map filePath result w1
         = worker_callback source' map filePath result w1).
Proof.
  intros Hmiss. split; [|split; [|split]].
  - intros pool Hpool. by apply compileInBackground_miss with pool.
  - intros w1 result contents Hread Hs. by apply worker_callback_failure.
  - intros w1 result contents Hread Hs. by apply worker_callback_success.
  - reflexivity.
Qed.

(** C10. On the background path the callback never receives a source
    map, whatever [map] was passed in.  A cache hit calls the callback with
    exactly [(null, contents)], and a successful worker compile calls it
    with exactly [(null, contents, null)]; a failed one passes
    [(contents)], and no other call of the callback is made on this path.
    The foreground path passes the pipeline's [result.map] as third
    argument. *)
Theorem background_returns_no_map w source map filePath :
  (forall contents,
      hasChanged (cache w) filePath = false ->
      hasErrored (cache w) filePath = false ->
      fs_read (fs w) (getCompiledPath (cache w) filePath) = inr contents ->
      compileInBackground source map filePath w
      = (inr tt, log [Done [VNull; VStr contents]] w))
  /\ (forall result contents,
         success result = true ->
         fs_read (fs w) (compiledPath result) = inr contents ->
         worker_callback source map filePath result w
         = (inr tt,
            log [CacheUpdate filePath (Some (compiledPath result)) None;
                 Done [VNull; VStr contents; VNull]]
                (with_cache (updateMTimeFor (cache w) filePath
                                            (Some (compiledPath result)) None) w)))
  /\ compileInBackground source map filePath w
     = compileInBackground source VNull filePath w
  /\ (forall args,
         Done args ∈ trace (compileInBackground source map filePath w).2 ->
         Done args ∈ trace w \/ exists contents, args = [VNull; VStr contents])
  /\ (forall result args,
         Done args ∈ trace (worker_callback source map filePath result w).2 ->
         Done args ∈ trace w
         \/ exists contents,
             (success result = false /\ args = [VStr contents])
             \/ (success result = true /\ args = [VNull; VStr contents; VNull]))
  /\ (forall result,
         worker_callback source map filePath result w
         = worker_callback source VNull filePath result w)
  /\ (forall (result : LoaderResult.t) err f',
         truthy err = false ->
         fs_write (fs w)
                  (path_resolve (Config.tempDir config) (generateCompiledPath filePath))
                  (LoaderResult.code result) = inr f' ->
         exists w',
           loaders_callback config path_resolve generateCompiledPath
                            filePath err result w = (inr tt, w')
           /\ Done [VNull; VStr (LoaderResult.code result); LoaderResult.map result]
              ∈ trace w').
Proof.
  split; [|split; [|split; [reflexivity|]]].
  - intros contents Hc He Hread. by apply compileInBackground_hit.
  - intros result contents Hs Hread. by apply worker_callback_success.
  - split; [|split; [|split; [reflexivity|]]].
    + intros args. apply compileInBackground_done_args.
    + intros result args. apply worker_callback_done_args.
    + intros result err f' Herr Hwrite. eexists.
      split; [by apply loaders_callback_success|].
      cbn. apply elem_of_app. right. do 2 right. left.
Qed.

End BackgroundClaims.

(** ** The properties on the example plugin *)

Lemma ex_started_reachable :
  reachable ex_config ex_compilerOptions ex_serialize ex_path_resolve
            ex_generateCompiledPath ex_applyLoaders ex_started.
Proof.
  apply reachable_step; [apply reachable_step; [apply reachable_initial | exact I]|].
  cbn [enabled]. apply list_elem_of_lookup. exists 3%nat. vm_compute. reflexivity.
Qed.

Lemma start_sequence_witness :
  trace (start ex_config ex_compilerOptions ex_serialize ex_world).2
  = [FsWrite ".happypack/options--1.json" "{}"; PoolCreate ex_config; CacheLoad; PoolStart].
Proof.
  destruct (start_sequence ex_config ex_compilerOptions ex_serialize ex_world
                           eq_refl eq_refl) as (_ & _ & Hok & _).
  erewrite Hok; [reflexivity | reflexivity | vm_compute; reflexivity].
Defined.

(** C1 as stated fails: with caching enabled the cache is loaded before
    [threadPool.start] is called, not after the pool reported ready.  In the
    calls of [start] on the example plugin, [CacheLoad] is the third and
    [PoolStart] the fourth. *)
Lemma cache_load_precedes_pool_start :
  ~ (forall (config : Config.t) (compilerOptions : gmap string JSValue)
            (serialize : JSValue -> gmap string JSValue -> Res string)
            (w : @World MemFS (gmap string CacheEntry)) (i j : nat),
        started (state w) = false ->
        initialBuildCompleted (state w) = false ->
        trace (start config compilerOptions serialize w).2 !! i = Some PoolStart ->
        trace (start config compilerOptions serialize w).2 !! j = Some CacheLoad ->
        (i < j)%nat).
Proof.
  intros Hclaim.
  assert (Hstart : trace (start ex_config ex_compilerOptions ex_serialize ex_world).2 !! 3%nat
                   = Some PoolStart) by (vm_compute; reflexivity).
  assert (Hload : trace (start ex_config ex_compilerOptions ex_serialize ex_world).2 !! 2%nat
                  = Some CacheLoad) by (vm_compute; reflexivity).
  pose proof (Hclaim ex_config ex_compilerOptions ex_serialize ex_world 3%nat 2%nat
                     eq_refl eq_refl Hstart Hload) as Hlt.
  lia.
Qed.

Lemma compile_routing_witness :
  compile ex_config ex_compilerOptions ex_path_resolve ex_generateCompiledPath
          ex_applyLoaders "source" VNull "a.js" ex_finished
  = compileInForeground ex_config ex_compilerOptions ex_path_resolve
                        ex_generateCompiledPath ex_applyLoaders
                        "source" VNull "a.js" ex_finished.
Proof.
  destruct (compile_routing (F := MemFS) (C := gmap string CacheEntry)
              ex_config ex_compilerOptions ex_serialize ex_path_resolve
              ex_generateCompiledPath ex_applyLoaders) as (_ & _ & Hfg & _).
  apply Hfg. vm_compute. reflexivity.
Defined.

Lemma background_cache_hit_witness :
  compileInBackground "source" VNull "a.js" ex_started
  = (inr tt, log [Done [VNull; VStr "compiled a"]] ex_started).
Proof.
  apply (background_cache_hit ex_config ex_compilerOptions ex_path_resolve
           ex_generateCompiledPath ex_applyLoaders ex_started "source" VNull "a.js"
           "compiled a");
    vm_compute; reflexivity.
Defined.

Lemma background_recompile_witness :
  compileInBackground "source" VNull "b.js" ex_started
  = (inr tt, log [CacheInvalidate "b.js"; PoolCompile "b.js"]
                 (with_cache (invalidateEntryFor (cache ex_started) "b.js") ex_started)).
Proof.
  destruct (background_recompile ex_started "source" VNull "b.js") as (Hdispatch & _).
  - left. vm_compute. reflexivity.
  - apply (Hdispatch {| pool_config := ex_config |}). vm_compute. reflexivity.
Defined.

(** C4 as stated fails: what the failure branch hands to the cache is not
    derived from the source.  With the same source and two different error
    outputs on disk, the two updates differ. *)
Lemma errored_update_not_from_source :
  ~ (exists signature : string -> option string,
        forall (w : @World MemFS (gmap string CacheEntry)) (source : string)
               (map : JSValue) (filePath : string) (result : WorkerResult)
               (contents : string),
          success result = false ->
          fs_read (fs w) (compiledPath result) = inr contents ->
          CacheUpdate filePath None (signature source)
          ∈ trace (worker_callback source map filePath result w).2).
Proof.
  intros (signature & Hclaim).
  pose proof (Hclaim ex_world "source" VNull "a.js" ex_failed_result "compiled a"
                     eq_refl eq_refl) as H1.
  pose proof (Hclaim ex_world_failed "source" VNull "a.js" ex_failed_result
                     "SyntaxError: bad" eq_refl eq_refl) as H2.
  change (trace (worker_callback "source" VNull "a.js" ex_failed_result ex_world).2)
    with [CacheUpdate "a.js" None (Some "compiled a"); Done [VStr "compiled a"]] in H1.
  change (trace (worker_callback "source" VNull "a.js" ex_failed_result ex_world_failed).2)
    with [CacheUpdate "a.js" None (Some "SyntaxError: bad");
          Done [VStr "SyntaxError: bad"]] in H2.
  repeat (rewrite ?elem_of_cons, ?elem_of_nil in H1).
  repeat (rewrite ?elem_of_cons, ?elem_of_nil in H2).
  destruct H1 as [H1|[H1|[]]]; [|discriminate].
  destruct H2 as [H2|[H2|[]]]; [|discriminate].
  injection H1 as H1. injection H2 as H2. congruence.
Qed.

Lemma teardown_idempotent_witness :
  exists w1,
    teardown ex_config ex_started = (inr tt, w1)
    /\ teardown ex_config w1 = (inr tt, w1)
    /\ trace w1 = trace ex_started ++ [CacheSave; PoolStop].
Proof.
  destruct (teardown_idempotent ex_config ex_compilerOptions ex_serialize ex_path_resolve
              ex_generateCompiledPath ex_applyLoaders ex_started)
    as (w1 & Hfirst & Hsecond & _ & _ & _ & Hstops).
  exists w1. split; [exact Hfirst|]. split; [exact Hsecond|].
  apply Hstops; [exact ex_started_reachable | vm_compute; reflexivity].
Defined.

Lemma start_when_busy_is_noop_witness :
  start ex_config ex_compilerOptions ex_serialize ex_started
  = (inr tt, log [Done []] ex_started).
Proof.
  apply (start_when_busy_is_noop ex_config ex_compilerOptions ex_serialize ex_path_resolve
           ex_generateCompiledPath ex_applyLoaders ex_started).
  left. vm_compute. reflexivity.
Defined.

Lemma foreground_error_witness :
  cache (compileInForeground ex_config ex_compilerOptions ex_path_resolve
           ex_generateCompiledPath ex_applyLoaders "source" VNull "a.js" ex_finished).2
  = invalidateEntryFor (cache ex_finished) "a.js".
Proof.
  destruct (foreground_error_leaves_cache_invalidated ex_config ex_compilerOptions
              ex_path_resolve ex_generateCompiledPath ex_applyLoaders
              ex_finished "source" VNull "a.js") as (_ & Hcb & _).
  apply (Hcb (VError "SyntaxError" "Unexpected token")
             {| LoaderResult.code := ""; LoaderResult.map := VUndefined |});
    reflexivity.
Defined.

Lemma background_returns_no_map_witness :
  exists w',
    loaders_callback ex_config ex_path_resolve ex_generateCompiledPath "a.js" VNull
                     {| LoaderResult.code := "var a;"; LoaderResult.map := VObj [] |}
                     ex_finished = (inr tt, w')
    /\ Done [VNull; VStr "var a;"; VObj []] ∈ trace w'.
Proof.
  destruct (background_returns_no_map ex_config ex_path_resolve ex_generateCompiledPath
              ex_finished "source" VNull "a.js") as (_ & _ & _ & _ & _ & _ & Hfg).
  eapply (Hfg {| LoaderResult.code := "var a;"; LoaderResult.map := VObj [] |} VNull);
    [reflexivity | vm_compute; reflexivity].
Defined.

(* ===================================================================== *)
(** * Further properties of the option parser and of construction *)
(* ===================================================================== *)

Section ParserInversion.
Variables (params : JSObject) (schema : OptionParser.Schema) (displayName : string).

Lemma own_Some_keys {A} (o : list (string * A)) (key : string) :
  is_Some (own o key) <-> key ∈ Object_keys o.
Proof.
  destruct (own o key) eqn:Hown.
  - split; [intros _|eauto].
    destruct (decide (key ∈ Object_keys o)) as [|Hn]; [done|].
    apply own_None_keys in Hn. congruence.
  - split; [intros [? ?]; done|]. intros Hin.
    apply own_None_keys in Hown. done.
Qed.

Lemma checkRequired_ok (keys : list string) :
  OptionParser.checkRequired params displayName keys = inr tt ->
  forall key, key ∈ keys -> hasOwnProperty "params" params key = inr true.
Proof.
  induction keys as [|k keys IH]; cbn [OptionParser.checkRequired]; intros Hok key Hin.
  - by apply elem_of_nil in Hin.
  - destruct (hasOwnProperty "params" params k) as [e|[]] eqn:Hk; cbn in Hok; [done| |done].
    apply elem_of_cons in Hin as [->|Hin]; [done | by apply IH].
Qed.



Lemma required_keys_spec (key : string) :
  key ∈ List.filter (fun key => match own schema key with
                               | Some s => OptionParser.isRequired s
                               | None => false
                               end) (Object_keys schema)
  <-> exists spec, own schema key = Some spec /\ OptionParser.isRequired spec = true.
Proof.
  rewrite list_elem_of_In, filter_In, <- list_elem_of_In. split.
  - intros [_ Hreq]. destruct (own schema key) as [spec|]; [eauto | done].
  - intros (spec & Hown & Hreq). split; [|by rewrite Hown].
    apply own_Some_keys. rewrite Hown. eauto.
Qed.

(** What one accepted key went through. *)
Lemma parseKey_accepts hsh hsh' (key : string) :
  OptionParser.parseKey params schema displayName hsh key = inr hsh' ->
  exists spec,
    own schema key = Some spec
    /\ (forall t, OptionParser.type spec = Some t -> typeof (prop params key) = t)
    /\ (forall f, OptionParser.validate spec = Some f ->
                  f (prop params key) = inr None \/ f (prop params key) = inr (Some ""))
    /\ hsh' = <[key := match OptionParser.has_default spec, prop params key with
                       | Some d, (VUndefined | VNull) => d
                       | _, _ => prop params key
                       end]> hsh.
Proof.
  unfold OptionParser.parseKey. intros Hp.
  destruct (hasOwnProperty "schema" schema key) as [e|[]]; [done| |done].
  destruct (own schema key) as [spec|]; [|done]. exists spec. split; [done|].
  assert (Hstore : forall r : Res (gmap string JSValue),
             r = inr hsh' ->
             r = match OptionParser.has_default spec, prop params key with
                 | Some d, (VUndefined | VNull) => inr (<[key := d]> hsh)
                 | _, _ => inr (<[key := prop params key]> hsh)
                 end ->
             hsh' = <[key := match OptionParser.has_default spec, prop params key with
                             | Some d, (VUndefined | VNull) => d
                             | _, _ => prop params key
                             end]> hsh).
  { intros r -> Hr.
    destruct (OptionParser.has_default spec), (prop params key);
      injection Hr as ->; reflexivity. }
  destruct (OptionParser.validate spec) as [f|] eqn:Hval.
  - destruct (f (prop params key)) as [e|[msg|]] eqn:Hf; [done| |].
    + destruct msg as [|c msg]; cbn in Hp; [|done].
      destruct (OptionParser.type spec) as [t|] eqn:Hty.
      * destruct (String.eqb_spec (typeof (prop params key)) t) as [Heq|]; cbn in Hp; [|done].
        split; [intros ? [= <-]; done|]. split; [intros ? [= <-]; eauto|].
        by apply (Hstore _ Hp).
      * split; [done|]. split; [intros ? [= <-]; eauto|]. by apply (Hstore _ Hp).
    + destruct (OptionParser.type spec) as [t|] eqn:Hty.
      * destruct (String.eqb_spec (typeof (prop params key)) t) as [Heq|]; cbn in Hp; [|done].
        split; [intros ? [= <-]; done|]. split; [intros ? [= <-]; eauto|].
        by apply (Hstore _ Hp).
      * split; [done|]. split; [intros ? [= <-]; eauto|]. by apply (Hstore _ Hp).
  - destruct (OptionParser.type spec) as [t|] eqn:Hty.
    + destruct (String.eqb_spec (typeof (prop params key)) t) as [Heq|]; cbn in Hp; [|done].
      split; [intros ? [= <-]; done|]. split; [done|]. by apply (Hstore _ Hp).
    + split; [done|]. split; [done|]. by apply (Hstore _ Hp).
Qed.

Lemma reduceKeys_accepts (keys : list string) hsh hsh' :
  OptionParser.reduceKeys params schema displayName hsh keys = inr hsh' ->
  (forall key, key ∈ keys ->
     exists spec,
       own schema key = Some spec
       /\ (forall t, OptionParser.type spec = Some t -> typeof (prop params key) = t)
       /\ (forall f, OptionParser.validate spec = Some f ->
                     f (prop params key) = inr None \/ f (prop params key) = inr (Some ""))
       /\ hsh' !! key = Some (match OptionParser.has_default spec, prop params key with
                              | Some d, (VUndefined | VNull) => d
                              | _, _ => prop params key
                              end))
  /\ (forall key, key ∉ keys -> hsh' !! key = hsh !! key).
Proof.
  revert hsh. induction keys as [|k keys IH]; intros hsh; cbn [OptionParser.reduceKeys].
  - intros [= <-]. split; [intros key Hin; by apply elem_of_nil in Hin | done].
  - destruct (OptionParser.parseKey params schema displayName hsh k) as [e|hsh1] eqn:Hk;
      [done|].
    intros Hrest. destruct (IH _ Hrest) as [IHin IHout].
    destruct (parseKey_accepts _ _ _ Hk) as (spec & Hown & Hty & Hval & ->).
    split.
    + intros key Hin. destruct (decide (key ∈ keys)) as [Hin'|Hnin]; [by apply IHin|].
      apply elem_of_cons in Hin as [->|Hin]; [|done].
      exists spec. split; [done|]. split; [done|]. split; [done|].
      rewrite (IHout _ Hnin). apply lookup_insert_eq.
    + intros key Hnin. rewrite IHout by (intros Hin; apply Hnin; by right).
      apply lookup_insert_ne. intros ->. apply Hnin. left.
Qed.

Lemma getDefaults_lookup (key : string) :
  OptionParser.getDefaults schema !! key = own schema key ≫= OptionParser.has_default.
Proof.
  unfold OptionParser.getDefaults.
  assert (Hfold : forall keys (hsh : gmap string JSValue),
             foldl (fun hsh key =>
                      match own schema key with
                      | Some s => match OptionParser.has_default s with
                                  | Some d => <[key := d]> hsh
                                  | None => hsh
                                  end
                      | None => hsh
                      end) hsh keys !! key
             = if decide (key ∈ keys)
               then match own schema key ≫= OptionParser.has_default with
                    | Some d => Some d
                    | None => hsh !! key
                    end
               else hsh !! key).
  { induction keys as [|k keys IH]; intros hsh; cbn [foldl].
    - destruct (decide (key ∈ [])) as [Hin|]; [by apply elem_of_nil in Hin | done].
    - rewrite IH.
      destruct (decide (key ∈ keys)) as [Hin|Hnin];
        destruct (decide (key ∈ k :: keys)) as [Hin'|Hnin'].
      + destruct (own schema key ≫= OptionParser.has_default) eqn:Hd; [done|].
        destruct (decide (k = key)) as [->|Hne].
        * destruct (own schema key) as [s|]; [|done]. cbn in Hd. by rewrite Hd.
        * destruct (own schema k) as [s|]; [|done].
          destruct (OptionParser.has_default s); [|done]. by rewrite lookup_insert_ne.
      + exfalso. apply Hnin'. by right.
      + apply elem_of_cons in Hin' as [->|?]; [|done].
        destruct (own schema k) as [s|]; [|done]. cbn.
        destruct (OptionParser.has_default s); [apply lookup_insert_eq | done].
      + destruct (own schema k) as [s|]; [|done].
        destruct (OptionParser.has_default s); [|done].
        apply lookup_insert_ne. intros ->. apply Hnin'. left. }
  rewrite Hfold, lookup_empty.
  destruct (decide (key ∈ Object_keys schema)) as [Hin|Hnin].
  - by destruct (own schema key ≫= OptionParser.has_default).
  - apply own_None_keys in Hnin. by rewrite Hnin.
Qed.

(** Everything a successful parse tells. *)
Lemma parse_inversion config :
  OptionParser.parseAndValidateOptions params schema displayName = inr config ->
  (forall key spec, own schema key = Some spec -> OptionParser.isRequired spec = true ->
                    hasOwnProperty "params" params key = inr true)
  /\ (forall key, key ∈ Object_keys params ->
        exists spec,
          own schema key = Some spec
          /\ (forall t, OptionParser.type spec = Some t -> typeof (prop params key) = t)
          /\ (forall f, OptionParser.validate spec = Some f ->
                        f (prop params key) = inr None \/ f (prop params key) = inr (Some ""))
          /\ config !! key = Some (match OptionParser.has_default spec, prop params key with
                                   | Some d, (VUndefined | VNull) => d
                                   | _, _ => prop params key
                                   end))
  /\ (forall key, key ∉ Object_keys params ->
        config !! key = own schema key ≫= OptionParser.has_default).
Proof.
  unfold OptionParser.parseAndValidateOptions.
  destruct (OptionParser.checkRequired _ _ _) as [e|[]] eqn:Hreq; [done|].
  intros Hred. apply reduceKeys_accepts in Hred as [Hin Hout].
  split; [|split; [exact Hin|]].
  - intros key spec Hown Hr. apply (checkRequired_ok _ Hreq).
    apply required_keys_spec. eauto.
  - intros key Hnin. rewrite (Hout _ Hnin). apply getDefaults_lookup.
Qed.
End ParserInversion.

Lemma prop_own (o : JSObject) (key : string) (v : JSValue) :
  own o key = Some v -> prop o key = v.
Proof. unfold prop. by intros ->. Qed.

Lemma HappyPlugin_inversion (userConfig : JSObject) (id : string) config :
  HappyPlugin userConfig id = inr config ->
  exists parsed n,
    OptionParser.parseAndValidateOptions userConfig happy_schema id = inr parsed
    /\ parsed !! "threads" = Some (VNum n)
    /\ config = <["threads" := VNum (Math_max (Math_ceil n) (Fin 1))]> parsed.
Proof.
  unfold HappyPlugin.
  destruct (OptionParser.parseAndValidateOptions userConfig happy_schema id)
    as [e|parsed] eqn:Hparse; [done|].
  destruct (parsed_threads_is_number _ _ _ Hparse) as (n & Hn & _).
  rewrite Hn. intros [= <-]. eauto.
Qed.

(** The stored value of an option of [happy_schema], read off a successful
    construction. *)
Lemma HappyPlugin_lookup (userConfig : JSObject) (id : string) config (key : string) :
  HappyPlugin userConfig id = inr config ->
  key <> "threads" ->
  match own userConfig key with
  | Some v =>
      exists spec,
        own happy_schema key = Some spec
        /\ (forall t, OptionParser.type spec = Some t -> typeof v = t)
        /\ (forall f, OptionParser.validate spec = Some f ->
                      f v = inr None \/ f v = inr (Some ""))
        /\ config !! key = Some (match OptionParser.has_default spec, v with
                                 | Some d, (VUndefined | VNull) => d
                                 | _, _ => v
                                 end)
  | None => config !! key = own happy_schema key ≫= OptionParser.has_default
  end.
Proof.
  intros Hbuild Hne.
  destruct (HappyPlugin_inversion _ _ _ Hbuild) as (parsed & n & Hparse & _ & ->).
  rewrite lookup_insert_ne by done.
  destruct (parse_inversion _ _ _ _ Hparse) as (_ & Hin & Hout).
  destruct (own userConfig key) as [v|] eqn:Hown.
  - assert (Hk : key ∈ Object_keys userConfig).
    { apply own_Some_keys. rewrite Hown. eauto. }
    destruct (Hin _ Hk) as (spec & Hs & Hty & Hval & Hcfg).
    rewrite (prop_own _ _ _ Hown) in Hty, Hval, Hcfg. eauto 6.
  - apply Hout. by apply own_None_keys.
Qed.



(** X2. A parse that succeeds has checked every key the user gave: the key
    is declared in the schema, its value has the declared type (when one is
    declared) and passes the declared validation (when there is one); and
    every required key of the schema is among the user's keys. *)
Theorem accepted_options_are_valid (params : JSObject) (schema : OptionParser.Schema)
        (displayName : string) config :
  OptionParser.parseAndValidateOptions params schema displayName = inr config ->
  (forall key spec, own schema key = Some spec -> OptionParser.isRequired spec = true ->
                    hasOwnProperty "params" params key = inr true)
  /\ (forall key v, own params key = Some v ->
        exists spec,
          own schema key = Some spec
          /\ (forall t, OptionParser.type spec = Some t -> typeof v = t)
          /\ (forall f, OptionParser.validate spec = Some f ->
                        f v = inr None \/ f v = inr (Some ""))).
Proof.
  intros Hparse. destruct (parse_inversion _ _ _ _ Hparse) as (Hreq & Hin & _).
  split; [exact Hreq|]. intros key v Hown.
  assert (Hk : key ∈ Object_keys params).
  { apply own_Some_keys. rewrite Hown. eauto. }
  destruct (Hin _ Hk) as (spec & Hs & Hty & Hval & _).
  rewrite (prop_own _ _ _ Hown) in Hty, Hval. eauto.
Qed.

Lemma accepted_options_are_valid_witness :
  exists spec,
    own happy_schema "threads" = Some spec
    /\ (forall t, OptionParser.type spec = Some t -> typeof (VNum (Fin (24 # 10))) = t).
Proof.
  assert (Hex : exists config,
             OptionParser.parseAndValidateOptions cfg_2_4 happy_schema "1" = inr config)
    by (eexists; vm_compute; reflexivity).
  destruct Hex as [config Hparse].
  destruct (accepted_options_are_valid _ _ _ _ Hparse) as [_ Hvalid].
  destruct (Hvalid "threads" (VNum (Fin (24 # 10))) eq_refl) as (spec & Hs & Hty & _).
  eauto.
Defined.

(** X3. What a successful parse stores under each key.  For a key the user
    gave: the schema's default when that default is truthy and the given
    value is [undefined] or [null], the given value otherwise.  For a key
    the user did not give: the schema's default when it is truthy, and
    nothing otherwise; a falsy default ([false], [0], the empty string) is
    never applied.  No other key is stored. *)
Theorem parsed_options_lookup (params : JSObject) (schema : OptionParser.Schema)
        (displayName : string) config (key : string) :
  OptionParser.parseAndValidateOptions params schema displayName = inr config ->
  config !! key
  = match own params key with
    | Some v =>
        Some (match own schema key ≫= OptionParser.has_default, v with
              | Some d, (VUndefined | VNull) => d
              | _, _ => v
              end)
    | None => own schema key ≫= OptionParser.has_default
    end.
Proof.
  intros Hparse. destruct (parse_inversion _ _ _ _ Hparse) as (_ & Hin & Hout).
  destruct (own params key) as [v|] eqn:Hown.
  - assert (Hk : key ∈ Object_keys params).
    { apply own_Some_keys. rewrite Hown. eauto. }
    destruct (Hin _ Hk) as (spec & Hs & _ & _ & Hcfg).
    rewrite (prop_own _ _ _ Hown) in Hcfg. rewrite Hcfg, Hs. reflexivity.
  - apply Hout. by apply own_None_keys.
Qed.

Lemma parsed_options_lookup_witness :
  exists config,
    OptionParser.parseAndValidateOptions
      [("loaders", VArr [VObj [("path", VStr "x")]]); ("cacheContext", VNull)]
      happy_schema "1" = inr config
    /\ config !! "cacheContext" = Some (VObj [])
    /\ config !! "cachePath" = None.
Proof.
  assert (Hex : exists config,
             OptionParser.parseAndValidateOptions
               [("loaders", VArr [VObj [("path", VStr "x")]]); ("cacheContext", VNull)]
               happy_schema "1" = inr config)
    by (eexists; vm_compute; reflexivity).
  destruct Hex as [config Hparse]. exists config. split; [exact Hparse|].
  split.
  - rewrite (parsed_options_lookup _ _ _ _ "cacheContext" Hparse). reflexivity.
  - rewrite (parsed_options_lookup _ _ _ _ "cachePath" Hparse). reflexivity.
Defined.

(** X4. An option with a declared type is not defaulted when the user
    passes [undefined] or [null] for it: [typeof] of these is neither
    "string", "number" nor "boolean", so construction fails.  The default
    is applied only when the key is absent. *)
Theorem explicit_undefined_is_rejected (userConfig : JSObject) (id key : string)
        (v : JSValue) :
  key ∈ ["id"; "tempDir"; "threads"; "cache"; "cachePath"; "installExitHandler"] ->
  own userConfig key = Some v ->
  v = VUndefined \/ v = VNull ->
  exists e, HappyPlugin userConfig id = inl e.
Proof.
  intros Hkey Hown Hv.
  destruct (HappyPlugin userConfig id) as [e|config] eqn:Hbuild; [eauto|].
  exfalso.
  destruct (HappyPlugin_inversion _ _ _ Hbuild) as (parsed & n & Hparse & _ & _).
  destruct (parse_inversion _ _ _ _ Hparse) as (_ & Hin & _).
  assert (Hk : key ∈ Object_keys userConfig).
  { apply own_Some_keys. rewrite Hown. eauto. }
  destruct (Hin _ Hk) as (spec & Hs & Hty & _).
  rewrite (prop_own _ _ _ Hown) in Hty.
  repeat (apply elem_of_cons in Hkey as [->|Hkey]);
    [..|by apply elem_of_nil in Hkey];
    injection Hs as <-; specialize (Hty _ eq_refl);
    destruct Hv as [-> | ->]; discriminate.
Qed.

Lemma explicit_undefined_is_rejected_witness :
  exists e,
    HappyPlugin [("loaders", VArr [VObj [("path", VStr "x")]]); ("threads", VUndefined)] "1"
    = inl e.
Proof.
  apply (explicit_undefined_is_rejected _ "1" "threads" VUndefined).
  - do 2 right. left.
  - reflexivity.
  - left. reflexivity.
Defined.

Lemma typed_option_lookup (userConfig : JSObject) (id : string) config
      (key t : string) (d : option JSValue) :
  HappyPlugin userConfig id = inr config ->
  key <> "threads" ->
  own happy_schema key = Some (OptionParser.Build_Spec (Some t) d None false) ->
  t = "string" \/ t = "boolean" ->
  match own userConfig key with
  | Some v => config !! key = Some v /\ typeof v = t
  | None => config !! key
            = OptionParser.has_default (OptionParser.Build_Spec (Some t) d None false)
  end.
Proof.
  intros Hbuild Hne Hschema Ht.
  pose proof (HappyPlugin_lookup _ _ _ key Hbuild Hne) as Hlook.
  destruct (own userConfig key) as [v|].
  - destruct Hlook as (spec & Hs & Hty & _ & Hcfg).
    rewrite Hschema in Hs. injection Hs as <-.
    specialize (Hty _ eq_refl). split; [|done]. rewrite Hcfg.
    destruct (OptionParser.has_default _); [|done].
    destruct v; try done; destruct Ht as [-> | ->]; discriminate.
  - rewrite Hlook, Hschema. reflexivity.
Qed.

(** The configuration before [optionsPath] is added. *)
Lemma HappyPlugin_fields (userConfig : JSObject) (id : string) config :
  HappyPlugin userConfig id = inr config ->
  (exists s, config !! "tempDir" = Some (VStr s)
             /\ VStr s = default (VStr ".happypack") (own userConfig "tempDir"))
  /\ (exists b, config !! "cache" = Some (VBool b)
                /\ VBool b = default (VBool true) (own userConfig "cache"))
  /\ (exists b, config !! "installExitHandler" = Some (VBool b)
                /\ VBool b = default (VBool true) (own userConfig "installExitHandler"))
  /\ config !! "cacheContext"
     = Some (match own userConfig "cacheContext" with
             | Some VUndefined | Some VNull | None => VObj []
             | Some v => v
             end)
  /\ config !! "id" = own userConfig "id"
  /\ config !! "cachePath" = own userConfig "cachePath"
  /\ (forall s v, s = "id" \/ s = "cachePath" -> config !! s = Some v -> typeof v = "string")
  /\ (forall key, is_Some (config !! key) -> key ∈ Object_keys happy_schema).
Proof.
  intros Hbuild.
  pose proof (typed_option_lookup _ _ _ "tempDir" "string" _ Hbuild
                ltac:(done) eq_refl ltac:(by left)) as HtempDir.
  pose proof (typed_option_lookup _ _ _ "cache" "boolean" _ Hbuild
                ltac:(done) eq_refl ltac:(by right)) as Hcache.
  pose proof (typed_option_lookup _ _ _ "installExitHandler" "boolean" _ Hbuild
                ltac:(done) eq_refl ltac:(by right)) as Hexit.
  pose proof (typed_option_lookup _ _ _ "id" "string" _ Hbuild
                ltac:(done) eq_refl ltac:(by left)) as Hid.
  pose proof (typed_option_lookup _ _ _ "cachePath" "string" _ Hbuild
                ltac:(done) eq_refl ltac:(by left)) as HcachePath.
  pose proof (HappyPlugin_lookup _ _ _ "cacheContext" Hbuild ltac:(done)) as Hctx.
  repeat split.
  - destruct (own userConfig "tempDir") as [v|]; cbn.
    + destruct HtempDir as [-> Hty]. destruct v; try discriminate. eauto.
    + rewrite HtempDir. eauto.
  - destruct (own userConfig "cache") as [v|]; cbn.
    + destruct Hcache as [-> Hty]. destruct v; try discriminate. eauto.
    + rewrite Hcache. eauto.
  - destruct (own userConfig "installExitHandler") as [v|]; cbn.
    + destruct Hexit as [-> Hty]. destruct v; try discriminate. eauto.
    + rewrite Hexit. eauto.
  - destruct (own userConfig "cacheContext") as [v|].
    + destruct Hctx as (spec & Hs & _ & _ & ->). injection Hs as <-.
      by destruct v.
    + rewrite Hctx. reflexivity.
  - destruct (own userConfig "id") as [v|]; [by destruct Hid | by rewrite Hid].
  - destruct (own userConfig "cachePath") as [v|];
      [by destruct HcachePath | by rewrite HcachePath].
  - intros s v [-> | ->] Hv.
    + destruct (own userConfig "id") as [v'|]; [|by rewrite Hid in Hv].
      destruct Hid as [Hcfg Hty]. rewrite Hcfg in Hv. by injection Hv as <-.
    + destruct (own userConfig "cachePath") as [v'|]; [|by rewrite HcachePath in Hv].
      destruct HcachePath as [Hcfg Hty]. rewrite Hcfg in Hv. by injection Hv as <-.
  - intros key [v Hv].
    destruct (HappyPlugin_inversion _ _ _ Hbuild) as (parsed & n & Hparse & _ & ->).
    destruct (decide (key = "threads")) as [->|Hne].
    { do 2 right. left. }
    rewrite lookup_insert_ne in Hv by done.
    destruct (parse_inversion _ _ _ _ Hparse) as (_ & Hin & Hout).
    destruct (decide (key ∈ Object_keys userConfig)) as [Hk|Hk].
    + destruct (Hin _ Hk) as (spec & Hs & _). apply own_Some_keys. rewrite Hs. eauto.
    + rewrite (Hout _ Hk) in Hv. apply own_Some_keys.
      destruct (own happy_schema key); [eauto | done].
Qed.

(** X5. What a constructed plugin's configuration holds besides [threads]
    and [loaders]: [tempDir] is the user's string or ".happypack";
    [optionsPath] is [path.resolve(tempDir, "options--" + id + ".json")];
    [cache] and [installExitHandler] are the user's boolean or [true];
    [cacheContext] is the user's value, or the empty object when it is
    absent, [undefined] or [null]; [id] and [cachePath] are present only
    when the user gave them, and are strings.  Every key of the
    configuration is a key of the schema or [optionsPath]. *)
Theorem constructed_config (path_resolve : string -> string -> string)
        (userConfig : JSObject) (id : string) config :
  HappyPlugin_config path_resolve userConfig id = inr config ->
  (exists s, config !! "tempDir" = Some (VStr s)
             /\ VStr s = default (VStr ".happypack") (own userConfig "tempDir")
             /\ config !! "optionsPath"
                = Some (VStr (path_resolve s ("options--" ++ id ++ ".json")%string)))
  /\ (exists b, config !! "cache" = Some (VBool b)
                /\ VBool b = default (VBool true) (own userConfig "cache"))
  /\ (exists b, config !! "installExitHandler" = Some (VBool b)
                /\ VBool b = default (VBool true) (own userConfig "installExitHandler"))
  /\ config !! "cacheContext"
     = Some (match own userConfig "cacheContext" with
             | Some VUndefined | Some VNull | None => VObj []
             | Some v => v
             end)
  /\ config !! "id" = own userConfig "id"
  /\ config !! "cachePath" = own userConfig "cachePath"
  /\ (forall s v, s = "id" \/ s = "cachePath" -> config !! s = Some v -> typeof v = "string")
  /\ (forall key, is_Some (config !! key) ->
                  key ∈ Object_keys happy_schema \/ key = "optionsPath").
Proof.
  unfold HappyPlugin_config.
  destruct (HappyPlugin userConfig id) as [e|config0] eqn:Hbuild; [done|].
  destruct (HappyPlugin_fields _ _ _ Hbuild)
    as ((s & Htemp & Hs) & Hcache & Hexit & Hctx & Hid & Hpath & Hstr & Hkeys).
  rewrite Htemp. intros [= <-].
  split; [|split; [|split; [|split; [|split; [|split; [|split]]]]]].
  - exists s. rewrite lookup_insert_ne by done. by rewrite lookup_insert_eq.
  - by rewrite lookup_insert_ne.
  - by rewrite lookup_insert_ne.
  - by rewrite lookup_insert_ne.
  - by rewrite lookup_insert_ne.
  - by rewrite lookup_insert_ne.
  - intros k v [-> | ->]; rewrite lookup_insert_ne by done; apply Hstr; eauto.
  - intros key Hkey. destruct (decide (key = "optionsPath")) as [->|Hne]; [by right|].
    left. apply Hkeys. by rewrite lookup_insert_ne in Hkey.
Qed.

Lemma constructed_config_witness :
  exists config,
    HappyPlugin_config ex_path_resolve cfg_no_threads "1" = inr config
    /\ config !! "cacheContext" = Some (VObj [])
    /\ config !! "cachePath" = None.
Proof.
  assert (Hex : exists config,
             HappyPlugin_config ex_path_resolve cfg_no_threads "1" = inr config)
    by (eexists; vm_compute; reflexivity).
  destruct Hex as [config Hbuild]. exists config. split; [exact Hbuild|].
  destruct (constructed_config _ _ _ _ Hbuild) as (_ & _ & _ & Hctx & _ & Hpath & _).
  split; [exact Hctx | exact Hpath].
Defined.

Lemma some_without_path_false (xs : list JSValue) :
  some_without_path xs = inr false ->
  Forall (fun loader => exists p, member loader "path" = inr p /\ truthy p = true) xs.
Proof.
  induction xs as [|loader xs IH]; cbn [some_without_path]; intros Hs; [constructor|].
  destruct (member loader "path") as [e|p] eqn:Hm; [done|].
  destruct (truthy p) eqn:Hp; cbn in Hs; [|done].
  constructor; [eauto | by apply IH].
Qed.

Lemma validate_loaders_accepts (v : JSValue) :
  validate_loaders v = inr None \/ validate_loaders v = inr (Some "") ->
  exists xs,
    v = VArr xs /\ xs <> []
    /\ Forall (fun loader => exists p, member loader "path" = inr p /\ truthy p = true) xs.
Proof.
  unfold validate_loaders. intros Hv.
  destruct v as [| |b|n|s|xs|ps|nm msg]; try (destruct Hv; discriminate).
  destruct xs as [|x xs]; [destruct Hv; discriminate|].
  exists (x :: xs). split; [done|]. split; [done|].
  apply some_without_path_false.
  destruct (some_without_path (x :: xs)) as [e|[]]; try (destruct Hv; discriminate).
  reflexivity.
Qed.

(** X6. A constructed plugin has loaders: the user gave an array, it is
    stored as given, it is not empty, and every element of it has a truthy
    [path]. *)
Theorem constructed_loaders (userConfig : JSObject) (id : string) config :
  HappyPlugin userConfig id = inr config ->
  exists xs,
    own userConfig "loaders" = Some (VArr xs)
    /\ config !! "loaders" = Some (VArr xs)
    /\ xs <> []
    /\ Forall (fun loader => exists p, member loader "path" = inr p /\ truthy p = true) xs.
Proof.
  intros Hbuild.
  pose proof (HappyPlugin_lookup _ _ _ "loaders" Hbuild ltac:(done)) as Hlook.
  destruct (HappyPlugin_inversion _ _ _ Hbuild) as (parsed & n & Hparse & _ & _).
  destruct (parse_inversion _ _ _ _ Hparse) as (Hreq & _ & _).
  specialize (Hreq "loaders" _ eq_refl eq_refl). unfold hasOwnProperty in Hreq.
  destruct (own userConfig "hasOwnProperty"); [done|].
  destruct (own userConfig "loaders") as [v|]; [|done].
  destruct Hlook as (spec & Hs & _ & Hval & Hcfg). injection Hs as <-.
  destruct (validate_loaders_accepts v (Hval _ eq_refl)) as (xs & -> & Hne & Hall).
  exists xs. split; [done|]. split; [|done]. exact Hcfg.
Qed.

Lemma constructed_loaders_witness :
  exists config xs,
    HappyPlugin cfg_2_4 "1" = inr config
    /\ config !! "loaders" = Some (VArr xs) /\ xs <> [].
Proof.
  assert (Hex : exists config, HappyPlugin cfg_2_4 "1" = inr config)
    by (eexists; vm_compute; reflexivity).
  destruct Hex as [config Hbuild].
  destruct (constructed_loaders _ _ _ Hbuild) as (xs & _ & Hcfg & Hne & _).
  exists config, xs. split; [exact Hbuild|]. split; [exact Hcfg | exact Hne].
Defined.

(** X7. The edges of the [threads] coercion.  A finite number up to 1
    (zero and the negatives among them) and [-Infinity] give 1 thread; an
    integer from 1 on is kept; [Infinity] stays [Infinity]; and for a
    finite number the result is never below what was asked. *)
Theorem threads_edges (userConfig : JSObject) (id : string) config (n : JSNum) :
  HappyPlugin userConfig id = inr config ->
  own userConfig "threads" = Some (VNum n) ->
  (forall q : Q, n = Fin q -> (q <= 1)%Q -> config !! "threads" = Some (VNum (Fin 1)))
  /\ (forall z : Z, n = Fin (inject_Z z) -> (1 <= z)%Z ->
                    config !! "threads" = Some (VNum (Fin (inject_Z z))))
  /\ (n = NegInf -> config !! "threads" = Some (VNum (Fin 1)))
  /\ (n = PosInf -> config !! "threads" = Some (VNum PosInf))
  /\ (forall q : Q, n = Fin q ->
        exists z : Z, config !! "threads" = Some (VNum (Fin (inject_Z z)))
                      /\ (q <= inject_Z z)%Q).
Proof.
  intros Hbuild Hown.
  destruct (HappyPlugin_threads _ _ _ Hbuild) as (n' & Hcfg & Hn').
  rewrite Hown in Hn'. injection Hn' as <-. rewrite Hcfg.
  split; [|split; [|split; [|split]]].
  - intros q -> Hq. rewrite max_ceil_finite.
    assert (Hc : (Qceiling q <= 1)%Z).
    { change 1%Z with (Qceiling (inject_Z 1)). by apply Qceiling_resp_le. }
    by rewrite Z.max_r.
  - intros z -> Hz. rewrite max_ceil_finite, Qceiling_Z. by rewrite Z.max_l.
  - intros ->. reflexivity.
  - intros ->. reflexivity.
  - intros q ->. rewrite max_ceil_finite. eexists. split; [reflexivity|].
    apply Qle_trans with (inject_Z (Qceiling q)); [apply Qle_ceiling|].
    rewrite <- Zle_Qle. apply Z.le_max_l.
Qed.

Lemma threads_edges_witness :
  exists config,
    HappyPlugin [("loaders", VArr [VObj [("path", VStr "x")]]); ("threads", VNum (Fin 0))] "1"
    = inr config
    /\ config !! "threads" = Some (VNum (Fin 1)).
Proof.
  assert (Hex : exists config,
             HappyPlugin [("loaders", VArr [VObj [("path", VStr "x")]]);
                          ("threads", VNum (Fin 0))] "1" = inr config)
    by (eexists; vm_compute; reflexivity).
  destruct Hex as [config Hbuild]. exists config. split; [exact Hbuild|].
  destruct (threads_edges _ _ _ (Fin 0) Hbuild eq_refl) as (Hlow & _).
  apply (Hlow 0%Q eq_refl). discriminate.
Defined.

(* ===================================================================== *)
(** * Further properties of the configuration snapshot *)
(* ===================================================================== *)

Section ExtractOptionsAlgebra.
Context {V : Type}.
Implicit Types (options : gmap string V) (key : string).

Lemma extractOptions_dom options :
  dom (extractOptions options) ⊆ list_to_set SERIALIZABLE_OPTIONS.
Proof.
  intros k Hk. apply elem_of_dom in Hk as [v Hv].
  rewrite extractOptions_lookup in Hv.
  destruct (decide (k ∈ SERIALIZABLE_OPTIONS)); [|done].
  by apply elem_of_list_to_set.
Qed.

(** X8. Extracting is idempotent, and an options object that holds only
    allow-listed keys is returned as it is (as a new object with the same
    entries); the empty object gives the empty object. *)
Theorem extractOptions_idempotent options :
  extractOptions (extractOptions options) = extractOptions options
  /\ (dom options ⊆ list_to_set SERIALIZABLE_OPTIONS -> extractOptions options = options)
  /\ extractOptions (∅ : gmap string V) = ∅.
Proof.
  split; [|split].
  - apply map_eq; intros k. rewrite !extractOptions_lookup.
    by destruct (decide (k ∈ SERIALIZABLE_OPTIONS)).
  - intros Hdom. apply map_eq; intros k. rewrite extractOptions_lookup.
    destruct (decide (k ∈ SERIALIZABLE_OPTIONS)) as [|Hn]; [done|].
    symmetry. apply not_elem_of_dom. intros Hk. apply Hn.
    apply Hdom in Hk. by apply elem_of_list_to_set in Hk.
  - apply map_eq; intros k. rewrite extractOptions_lookup, lookup_empty.
    by destruct (decide (k ∈ SERIALIZABLE_OPTIONS)).
Qed.

(** X9. Extracting commutes with setting and with deleting a property: a
    property set under an allow-listed key shows in the snapshot with the
    value set, a property set under any other key leaves the snapshot as it
    was, and a deleted property is gone from the snapshot. *)
Theorem extractOptions_insert_delete options key (v : V) :
  extractOptions (<[key := v]> options)
  = (if decide (key ∈ SERIALIZABLE_OPTIONS)
     then <[key := v]> (extractOptions options)
     else extractOptions options)
  /\ extractOptions (delete key options) = delete key (extractOptions options).
Proof.
  split.
  - apply map_eq; intros k. rewrite extractOptions_lookup.
    destruct (decide (key ∈ SERIALIZABLE_OPTIONS)) as [Hal|Hnal].
    + destruct (decide (key = k)) as [->|Hne].
      * rewrite decide_True by done. by rewrite !lookup_insert_eq.
      * rewrite !lookup_insert_ne by done. by rewrite extractOptions_lookup.
    + rewrite extractOptions_lookup.
      destruct (decide (k ∈ SERIALIZABLE_OPTIONS)) as [Hal|]; [|done].
      apply lookup_insert_ne. by intros ->.
  - apply map_eq; intros k. rewrite extractOptions_lookup.
    destruct (decide (key = k)) as [->|Hne].
    + rewrite !lookup_delete_eq. by destruct (decide (k ∈ SERIALIZABLE_OPTIONS)).
    + rewrite !lookup_delete_ne by done. by rewrite extractOptions_lookup.
Qed.

(** X10. Extracting is monotone, and a snapshot never has more than the
    eleven allow-listed keys, however large the host's options are. *)
Theorem extractOptions_bounded options :
  (forall options', options ⊆ options' ->
                    extractOptions options ⊆ extractOptions options')
  /\ size (extractOptions options) <= 11.
Proof.
  split.
  - intros options' Hsub. apply map_subseteq_spec. intros k v.
    rewrite !extractOptions_lookup.
    destruct (decide (k ∈ SERIALIZABLE_OPTIONS)); [|done].
    intros Hv. by apply (lookup_weaken options options').
  - rewrite <- size_dom.
    transitivity (size (list_to_set SERIALIZABLE_OPTIONS : gset string)).
    + apply subseteq_size, extractOptions_dom.
    + rewrite size_list_to_set; [done|].
      apply (bool_decide_unpack _). vm_compute. reflexivity.
Qed.
End ExtractOptionsAlgebra.

Lemma extractOptions_idempotent_witness :
  extractOptions (<["watch" := VBool true]> (∅ : gmap string JSValue))
  = <["watch" := VBool true]> ∅.
Proof.
  apply (extractOptions_idempotent (<["watch" := VBool true]> (∅ : gmap string JSValue))).
  rewrite dom_insert_L, dom_empty_L.
  intros k Hk. apply elem_of_union in Hk as [Hk|Hk]; [|by apply elem_of_empty in Hk].
  apply elem_of_singleton in Hk as ->. apply elem_of_list_to_set.
  do 10 right. left.
Defined.

Lemma extractOptions_bounded_witness :
  extractOptions (<["plugins" := VArr []]> (∅ : gmap string JSValue))
  ⊆ extractOptions ex_compilerOptions.
Proof.
  apply (extractOptions_bounded (<["plugins" := VArr []]> (∅ : gmap string JSValue))).
  unfold ex_compilerOptions. apply insert_subseteq.
  rewrite lookup_insert_ne by done. apply lookup_empty.
Defined.

(* ===================================================================== *)
(** * Further properties of the lifecycle *)
(* ===================================================================== *)

Section LifecycleMore.
Context {F C : Type} `{!FileSystem F} `{!FSCache C}.
Variable config : Config.t.
Variable compilerOptions : gmap string JSValue.
Variable serialize : JSValue -> gmap string JSValue -> Res string.
Variable path_resolve : string -> string -> string.
Variable generateCompiledPath : string -> string.
Variable applyLoaders :
  JSValue -> gmap string JSValue -> string -> JSValue -> string -> LoaderReply.
Implicit Types (w : @World F C) (ev : HostEvent) (evs : list HostEvent).

Local Abbreviation handle_ :=
  (handle config compilerOptions serialize path_resolve generateCompiledPath applyLoaders).
Local Abbreviation run_events_ :=
  (run_events config compilerOptions serialize path_resolve generateCompiledPath
              applyLoaders).
Local Abbreviation start_ := (start config compilerOptions serialize).

(** The calls of a start that goes through. *)
Local Abbreviation bringup data :=
  ([FsWrite (Config.optionsPath config) data; PoolCreate config]
     ++ (if Config.cache config then [CacheLoad] else [])
     ++ [PoolStart]).

Lemma start_success w data f' :
  started (state w) = false ->
  initialBuildCompleted (state w) = false ->
  serialize (Config.loaders config) (extractOptions compilerOptions) = inr data ->
  fs_write (fs w) (Config.optionsPath config) data = inr f' ->
  start_ w
  = (inr tt,
     {| state := state w;
        cache := if Config.cache config then cache_load (cache w) else cache w;
        threadPool := Some {| pool_config := config |};
        fs := f';
        trace := trace w ++ bringup data |}).
Proof.
  intros Hs Hflag Hser Hwrite. unfold_engine. rewrite Hs, Hflag, Hser. cbn.
  rewrite Hwrite. cbn.
  destruct (Config.cache config); cbn;
    unfold log, with_fs, with_threadPool, with_cache; cbn;
    rewrite <- ?app_assoc; reflexivity.
Qed.

Lemma run_events_app evs1 evs2 w :
  run_events_ (evs1 ++ evs2) w = run_events_ evs2 (run_events_ evs1 w).
Proof. unfold run_events. apply foldl_app. Qed.

Lemma handle_started_by_callback ev w :
  started (state (handle_ ev w).2) = true ->
  started (state w) = true \/ exists err, ev = PoolStarted err /\ truthy err = false.
Proof.
  destruct ev; unfold_engine.
  all: crush_matches.
  all: cbn; intros Hx; try (left; congruence); try discriminate.
  all: right; eauto.
Qed.

Lemma handle_keeps_pool ev w :
  is_Some (threadPool w) -> is_Some (threadPool (handle_ ev w).2).
Proof.
  intros Hpool. destruct ev; unfold_engine.
  all: crush_matches.
  all: cbn; eauto.
  all: by destruct Hpool.
Qed.

Lemma handle_after_initial_build ev w :
  initialBuildCompleted (state w) = true ->
  List.filter is_initial_build_call (trace (handle_ ev w).2)
  = List.filter is_initial_build_call (trace w).
Proof.
  intros Hflag. destruct ev; unfold_engine; cbn; rewrite ?Hflag, ?orb_true_r.
  all: crush_matches.
  all: cbn; rewrite ?List.filter_app; cbn; rewrite ?app_nil_r; reflexivity.
Qed.

Lemma handle_cache_disabled ev w :
  Config.cache config = false ->
  List.filter is_cache_io (trace (handle_ ev w).2) = List.filter is_cache_io (trace w).
Proof.
  intros Hcache. destruct ev; unfold_engine; cbn; rewrite ?Hcache.
  all: crush_matches.
  all: cbn; rewrite ?List.filter_app; cbn; rewrite ?app_nil_r; reflexivity.
Qed.

Lemma handle_flag_by_done ev w :
  initialBuildCompleted (state (handle_ ev w).2) = true ->
  initialBuildCompleted (state w) = true \/ ev = BuildDone.
Proof.
  destruct ev; unfold_engine.
  all: crush_matches.
  all: cbn; intros Hx; try (left; congruence); try discriminate.
  all: by right.
Qed.

Lemma run_events_flag_by_done evs w :
  initialBuildCompleted (state (run_events_ evs w)) = true ->
  initialBuildCompleted (state w) = true \/ BuildDone ∈ evs.
Proof.
  induction evs as [|ev evs IH] using rev_ind; [by left|].
  rewrite run_events_app. intros Hflag.
  apply handle_flag_by_done in Hflag as [Hflag | ->].
  - destruct (IH Hflag) as [?|Hin]; [by left|]. right. apply elem_of_app. by left.
  - right. apply elem_of_app. right. left.
Qed.

(** X11. [started] is set by the pool's callback only, so a second
    build-begin event that comes before the callback is not a no-op: it
    writes the snapshot again, creates another pool, loads the cache again
    and starts the new pool. *)
Theorem start_repeats_before_ready w data f1 f2 :
  started (state w) = false ->
  initialBuildCompleted (state w) = false ->
  serialize (Config.loaders config) (extractOptions compilerOptions) = inr data ->
  fs_write (fs w) (Config.optionsPath config) data = inr f1 ->
  fs_write f1 (Config.optionsPath config) data = inr f2 ->
  run_events_ [Run; WatchRun] w
  = {| state := state w;
       cache := if Config.cache config
                then cache_load (cache_load (cache w)) else cache w;
       threadPool := Some {| pool_config := config |};
       fs := f2;
       trace := trace w ++ bringup data ++ bringup data |}.
Proof.
  intros Hs Hflag Hser Hw1 Hw2. unfold run_events. cbn [foldl handle].
  rewrite (start_success w data f1) by done. cbn [snd].
  rewrite (start_success _ data f2) by done. cbn.
  destruct (Config.cache config); cbn; rewrite <- ?app_assoc; reflexivity.
Qed.

(** X12. One whole build.  From a plugin that is neither started nor past
    its initial build, the events begin, pool ready, finished leave it not
    started, with the initial build completed, the cache loaded and then
    saved (when caching is on) and the pool stopped; the readiness callback
    was called once, after the pool was started.  When the pool reports an
    error instead, the error goes to the readiness callback and the finish
    neither saves the cache nor stops the pool. *)
Theorem build_cycle w data f' err :
  started (state w) = false ->
  initialBuildCompleted (state w) = false ->
  serialize (Config.loaders config) (extractOptions compilerOptions) = inr data ->
  fs_write (fs w) (Config.optionsPath config) data = inr f' ->
  (truthy err = false ->
   run_events_ [Run; PoolStarted err; BuildDone] w
   = {| state := {| started := false; initialBuildCompleted := true |};
        cache := if Config.cache config
                 then cache_save (cache_load (cache w)) else cache w;
        threadPool := Some {| pool_config := config |};
        fs := f';
        trace := trace w ++ bringup data ++ [Done []]
                         ++ (if Config.cache config then [CacheSave] else [])
                         ++ [PoolStop] |})
  /\ (truthy err = true ->
      run_events_ [Run; PoolStarted err; BuildDone] w
      = {| state := {| started := false; initialBuildCompleted := true |};
           cache := if Config.cache config then cache_load (cache w) else cache w;
           threadPool := Some {| pool_config := config |};
           fs := f';
           trace := trace w ++ bringup data ++ [Done [err]] |}).
Proof.
  intros Hs Hflag Hser Hwrite. unfold run_events. cbn [foldl handle].
  rewrite (start_success w data f') by done. cbn [snd].
  split; intros Herr; unfold_engine; cbn; rewrite Herr; cbn.
  - destruct (Config.cache config); cbn;
      unfold log, with_started, with_initialBuildCompleted, with_cache; cbn;
      rewrite <- ?app_assoc; reflexivity.
  - rewrite Hs. cbn.
    destruct (Config.cache config); cbn;
      unfold log, with_started, with_initialBuildCompleted, with_cache; cbn;
      rewrite ?Hs, <- ?app_assoc; reflexivity.
Qed.

(** X13. Once the initial build is completed the plugin is done with the
    pool and with loading: whatever events follow, it never again creates
    or starts a pool, dispatches a file to a worker, or loads the cache. *)
Theorem no_pool_use_after_initial_build evs w :
  initialBuildCompleted (state w) = true ->
  List.filter is_initial_build_call (trace (run_events_ evs w))
  = List.filter is_initial_build_call (trace w).
Proof.
  revert w. induction evs as [|ev evs IH]; intros w Hflag; [done|].
  change (run_events_ (ev :: evs) w) with (run_events_ evs (handle_ ev w).2).
  rewrite IH.
  - by apply handle_after_initial_build.
  - by apply handle_keeps_initialBuildCompleted.
Qed.

(** X14. With [cache: false] the cache file is never read or written:
    no sequence of events makes the plugin call [cache.load] or
    [cache.save]. *)
Theorem no_cache_io_when_disabled evs w :
  Config.cache config = false ->
  List.filter is_cache_io (trace (run_events_ evs w)) = List.filter is_cache_io (trace w).
Proof.
  intros Hcache. revert w. induction evs as [|ev evs IH]; intros w; [done|].
  change (run_events_ (ev :: evs) w) with (run_events_ evs (handle_ ev w).2).
  rewrite IH. by apply handle_cache_disabled.
Qed.

(** X15. The pool object, once created, is never dropped: no handler
    clears [threadPool], and [teardown] in particular leaves it in place
    after stopping it. *)
Theorem pool_handle_is_kept evs w :
  is_Some (threadPool w) ->
  is_Some (threadPool (run_events_ evs w))
  /\ threadPool (teardown config w).2 = threadPool w.
Proof.
  intros Hpool. split.
  - revert w Hpool. induction evs as [|ev evs IH]; intros w Hpool; [done|].
    change (run_events_ (ev :: evs) w) with (run_events_ evs (handle_ ev w).2).
    apply IH. by apply handle_keeps_pool.
  - unfold_engine. crush_matches; cbn; congruence.
Qed.

(** X16. [isAcceptingSyncRequests] changes nothing, and on a plugin that
    went through a sequence of events since its construction it answers
    [true] exactly when a build-finished event is among them. *)
Theorem isAcceptingSyncRequests_after evs (c : C) (f : F) :
  let w := run_events_ evs (initial c f) in
  (isAcceptingSyncRequests w).2 = w
  /\ ((isAcceptingSyncRequests w).1 = inr true <-> BuildDone ∈ evs).
Proof.
  cbn zeta. split; [reflexivity|].
  unfold isAcceptingSyncRequests, get, mbind, M_bind, mret, M_ret. cbn [fst].
  split.
  - intros Hans. injection Hans as Hflag.
    by apply run_events_flag_by_done in Hflag as [Hinit|Hin].
  - intros Hin. apply list_elem_of_split in Hin as (evs1 & evs2 & ->).
    rewrite run_events_app. f_equal.
    change (run_events_ (BuildDone :: evs2) ?w0)
      with (run_events_ evs2 (handle_ BuildDone w0).2).
    apply run_events_keeps_flag, on_done_sets_flag.
Qed.

(** X17. A plugin is started only if the pool reported readiness without
    an error: when [started] holds after a sequence of events, one of them
    is a pool callback with a falsy error. *)
Theorem started_needs_pool_ready evs (c : C) (f : F) :
  started (state (run_events_ evs (initial c f))) = true ->
  exists err, PoolStarted err ∈ evs /\ truthy err = false.
Proof.
  induction evs as [|ev evs IH] using rev_ind; [done|].
  rewrite run_events_app. intros Hs.
  apply handle_started_by_callback in Hs as [Hs|(err & -> & Herr)].
  - destruct (IH Hs) as (err & Hin & Herr). exists err. split; [|done].
    apply elem_of_app. by left.
  - exists err. split; [|done]. apply elem_of_app. right. left.
Qed.

End LifecycleMore.

(* ===================================================================== *)
(** * Further properties of compile routing *)
(* ===================================================================== *)

Section CompileMore.
Context {F C : Type} `{!FileSystem F} `{!FSCache C}.
Variable config : Config.t.
Variable compilerOptions : gmap string JSValue.
Variable serialize : JSValue -> gmap string JSValue -> Res string.
Variable path_resolve : string -> string -> string.
Variable generateCompiledPath : string -> string.
Variable applyLoaders :
  JSValue -> gmap string JSValue -> string -> JSValue -> string -> LoaderReply.
Implicit Types (w : @World F C).

Local Abbreviation handle_ :=
  (handle config compilerOptions serialize path_resolve generateCompiledPath applyLoaders).
Local Abbreviation loaders_callback_ :=
  (loaders_callback config path_resolve generateCompiledPath).

(** X18. The foreground path on success: the code is written to
    [path.resolve(tempDir, generateCompiledPath(filePath))], then that path
    is recorded in the cache, then the callback receives
    [(null, code, map)].  If the write throws, the exception goes to the
    caller of the callback, the cache is not updated and the compile's
    callback is never called. *)
Theorem foreground_success w (filePath : string) (err : JSValue) (result : LoaderResult.t) :
  truthy err = false ->
  (forall f',
      fs_write (fs w)
               (path_resolve (Config.tempDir config) (generateCompiledPath filePath))
               (LoaderResult.code result) = inr f' ->
      loaders_callback_ filePath err result w
      = (inr tt,
         {| state := state w;
            cache := updateMTimeFor
                       (cache w) filePath
                       (Some (path_resolve (Config.tempDir config)
                                           (generateCompiledPath filePath))) None;
            threadPool := threadPool w;
            fs := f';
            trace := trace w
                       ++ [FsWrite (path_resolve (Config.tempDir config)
                                                 (generateCompiledPath filePath))
                                   (LoaderResult.code result);
                           CacheUpdate filePath
                                       (Some (path_resolve (Config.tempDir config)
                                                           (generateCompiledPath filePath)))
                                       None;
                           Done [VNull; VStr (LoaderResult.code result);
                                 LoaderResult.map result]] |}))
  /\ (forall e,
         fs_write (fs w)
                  (path_resolve (Config.tempDir config) (generateCompiledPath filePath))
                  (LoaderResult.code result) = inl e ->
         loaders_callback_ filePath err result w
         = (inl e,
            log [FsWrite (path_resolve (Config.tempDir config)
                                       (generateCompiledPath filePath))
                         (LoaderResult.code result)] w)).
Proof.
  intros Herr. split.
  - intros f' Hwrite. by apply loaders_callback_success.
  - intros e Hwrite. unfold_engine. rewrite Herr. cbn. rewrite Hwrite. reflexivity.
Qed.

(** X19. Where the background path throws.  On a cache hit whose artifact
    cannot be read, and in the worker's callback when the artifact cannot
    be read, the read's exception is thrown and nothing else happens: no
    cache call, no callback.  On a miss while there is no pool object (the
    plugin was never started), the entry is invalidated and then a
    TypeError is thrown; nothing is dispatched. *)
Theorem background_throws w (source : string) (map : JSValue) (filePath : string) :
  (forall e,
      hasChanged (cache w) filePath = false ->
      hasErrored (cache w) filePath = false ->
      fs_read (fs w) (getCompiledPath (cache w) filePath) = inl e ->
      compileInBackground source map filePath w = (inl e, w))
  /\ (hasChanged (cache w) filePath = true \/ hasErrored (cache w) filePath = true ->
      threadPool w = None ->
      compileInBackground source map filePath w
      = (inl (VError "TypeError"
                     "Cannot read properties of undefined (reading 'getThread')"),
         log [CacheInvalidate filePath]
             (with_cache (invalidateEntryFor (cache w) filePath) w)))
  /\ (forall result e,
         fs_read (fs w) (compiledPath result) = inl e ->
         worker_callback source map filePath result w = (inl e, w)).
Proof.
  split; [|split].
  - intros e Hc He Hread. by apply compileInBackground_hit_unreadable.
  - intros Hmiss Hpool. unfold_engine.
    assert (negb (hasChanged (cache w) filePath) && negb (hasErrored (cache w) filePath)
            = false) as ->.
    { destruct Hmiss as [-> | ->]; [done | apply andb_false_r]. }
    cbn. rewrite Hpool. world_eq.
  - intros result e Hread. by apply worker_callback_unreadable.
Qed.

(** X20. A failed compile is tried again.  When a worker reports failure
    for a path and the cache then reports that path errored (which is what
    the update with an error is for), the next background compile of the
    path invalidates the entry and dispatches it to a worker again instead
    of serving anything from the cache. *)
Theorem failed_compile_is_retried w (source : string) (map : JSValue) (filePath : string)
        (result : WorkerResult) (contents : string) (pool : ThreadPool) :
  success result = false ->
  fs_read (fs w) (compiledPath result) = inr contents ->
  threadPool w = Some pool ->
  hasErrored (updateMTimeFor (cache w) filePath None (Some contents)) filePath = true ->
  exists w1,
    worker_callback source map filePath result w = (inr tt, w1)
    /\ compileInBackground source map filePath w1
       = (inr tt, log [CacheInvalidate filePath; PoolCompile filePath]
                      (with_cache (invalidateEntryFor (cache w1) filePath) w1)).
Proof.
  intros Hs Hread Hpool Hlaw. eexists.
  split; [by apply worker_callback_failure|].
  apply compileInBackground_miss with pool; [right; exact Hlaw | exact Hpool].
Qed.

(** X21. A successful compile is served from the cache afterwards.  When a
    worker reports success for a path and the cache then reports the path
    unchanged and not errored, with the worker's artifact as its compiled
    path, the next background compile of the path calls back with the same
    contents and dispatches nothing. *)
Theorem compiled_file_is_served w (source : string) (map : JSValue) (filePath : string)
        (result : WorkerResult) (contents : string) :
  success result = true ->
  fs_read (fs w) (compiledPath result) = inr contents ->
  (let c := updateMTimeFor (cache w) filePath (Some (compiledPath result)) None in
   hasChanged c filePath = false /\ hasErrored c filePath = false
   /\ getCompiledPath c filePath = compiledPath result) ->
  exists w1,
    worker_callback source map filePath result w = (inr tt, w1)
    /\ compileInBackground source map filePath w1
       = (inr tt, log [Done [VNull; VStr contents]] w1).
Proof.
  intros Hs Hread (Hc & He & Hp). eexists.
  split; [by apply worker_callback_success|].
  apply compileInBackground_hit; cbn; [done | done | by rewrite Hp].
Qed.

(** X22. Compiling never touches the lifecycle: a compile request, a
    worker's answer and the pipeline's answer leave [started],
    [initialBuildCompleted] and the pool object as they are, whether they
    succeed or throw. *)
Theorem compile_keeps_lifecycle w (ev : HostEvent) :
  match ev with
  | Compile _ _ _ | WorkerDone _ _ _ _ | LoadersDone _ _ _ => True
  | _ => False
  end ->
  state (handle_ ev w).2 = state w /\ threadPool (handle_ ev w).2 = threadPool w.
Proof.
  intros Hev. destruct ev; try done; unfold_engine.
  all: crush_matches.
  all: cbn; split; congruence.
Qed.

End CompileMore.

(** ** The further properties on the example plugin *)

Lemma start_repeats_before_ready_witness :
  trace (run_events ex_config ex_compilerOptions ex_serialize ex_path_resolve
                    ex_generateCompiledPath ex_applyLoaders [Run; WatchRun] ex_world)
  = [FsWrite ".happypack/options--1.json" "{}"; PoolCreate ex_config; CacheLoad; PoolStart;
     FsWrite ".happypack/options--1.json" "{}"; PoolCreate ex_config; CacheLoad; PoolStart].
Proof.
  erewrite (start_repeats_before_ready ex_config ex_compilerOptions ex_serialize
              ex_path_resolve ex_generateCompiledPath ex_applyLoaders ex_world "{}");
    [reflexivity | reflexivity | reflexivity | reflexivity
     | vm_compute; reflexivity | vm_compute; reflexivity].
Defined.

Lemma build_cycle_witness :
  trace (run_events ex_config ex_compilerOptions ex_serialize ex_path_resolve
                    ex_generateCompiledPath ex_applyLoaders
                    [Run; PoolStarted VUndefined; BuildDone] ex_world)
  = [FsWrite ".happypack/options--1.json" "{}"; PoolCreate ex_config; CacheLoad; PoolStart;
     Done []; CacheSave; PoolStop].
Proof.
  destruct (build_cycle ex_config ex_compilerOptions ex_serialize ex_path_resolve
              ex_generateCompiledPath ex_applyLoaders ex_world "{}"
              {| files := <[".happypack/options--1.json" := "{}"]> (files ex_fs);
                 locked := [] |}
              VUndefined eq_refl eq_refl eq_refl) as [Hok _].
  - vm_compute. reflexivity.
  - rewrite Hok; reflexivity.
Defined.

Lemma no_pool_use_after_initial_build_witness :
  List.filter is_initial_build_call
    (trace (run_events ex_config ex_compilerOptions ex_serialize ex_path_resolve
                       ex_generateCompiledPath ex_applyLoaders
                       [WatchRun; Compile "source" VNull "b.js"; BuildDone] ex_finished))
  = [PoolCreate ex_config; CacheLoad; PoolStart].
Proof.
  rewrite (no_pool_use_after_initial_build ex_config ex_compilerOptions ex_serialize
             ex_path_resolve ex_generateCompiledPath ex_applyLoaders);
    vm_compute; reflexivity.
Defined.

Lemma no_cache_io_when_disabled_witness :
  List.filter is_cache_io
    (trace (run_events ex_config_nocache ex_compilerOptions ex_serialize ex_path_resolve
                       ex_generateCompiledPath ex_applyLoaders
                       [Run; PoolStarted VUndefined; Compile "source" VNull "b.js"; BuildDone]
                       ex_world))
  = [].
Proof.
  rewrite (no_cache_io_when_disabled ex_config_nocache ex_compilerOptions ex_serialize
             ex_path_resolve ex_generateCompiledPath ex_applyLoaders);
    reflexivity.
Defined.

Lemma pool_handle_is_kept_witness :
  is_Some (threadPool (run_events ex_config ex_compilerOptions ex_serialize ex_path_resolve
                                  ex_generateCompiledPath ex_applyLoaders
                                  [BuildDone; ProcessExit] ex_started)).
Proof.
  apply (pool_handle_is_kept ex_config ex_compilerOptions ex_serialize ex_path_resolve
           ex_generateCompiledPath ex_applyLoaders [BuildDone; ProcessExit] ex_started).
  vm_compute. eauto.
Defined.

Lemma started_needs_pool_ready_witness :
  exists err, PoolStarted err ∈ [Run; PoolStarted VUndefined] /\ truthy err = false.
Proof.
  apply (started_needs_pool_ready ex_config ex_compilerOptions ex_serialize ex_path_resolve
           ex_generateCompiledPath ex_applyLoaders [Run; PoolStarted VUndefined]
           ex_cache ex_fs).
  vm_compute. reflexivity.
Defined.

Lemma foreground_success_witness :
  trace (loaders_callback ex_config ex_path_resolve ex_generateCompiledPath "b.js" VNull
           {| LoaderResult.code := "var b;"; LoaderResult.map := VObj [] |} ex_finished).2
  = trace ex_finished
      ++ [FsWrite ".happypack/s--b.js" "var b;";
          CacheUpdate "b.js" (Some ".happypack/s--b.js") None;
          Done [VNull; VStr "var b;"; VObj []]].
Proof.
  destruct (foreground_success ex_config ex_path_resolve ex_generateCompiledPath
              ex_finished "b.js" VNull
              {| LoaderResult.code := "var b;"; LoaderResult.map := VObj [] |} eq_refl)
    as [Hok _].
  erewrite Hok; [reflexivity | vm_compute; reflexivity].
Defined.

Lemma background_throws_witness :
  compileInBackground "source" VNull "b.js" ex_world
  = (inl (VError "TypeError" "Cannot read properties of undefined (reading 'getThread')"),
     log [CacheInvalidate "b.js"]
         (with_cache (invalidateEntryFor (cache ex_world) "b.js") ex_world)).
Proof.
  destruct (background_throws ex_world "source" VNull "b.js") as (_ & Hmiss & _).
  apply Hmiss; [left; vm_compute; reflexivity | reflexivity].
Defined.

Lemma failed_compile_is_retried_witness :
  exists w1,
    worker_callback "source" VNull "a.js" ex_failed_result ex_started = (inr tt, w1)
    /\ compileInBackground "source" VNull "a.js" w1
       = (inr tt, log [CacheInvalidate "a.js"; PoolCompile "a.js"]
                      (with_cache (invalidateEntryFor (cache w1) "a.js") w1)).
Proof.
  apply (failed_compile_is_retried ex_started "source" VNull "a.js" ex_failed_result
           "compiled a" {| pool_config := ex_config |});
    vm_compute; reflexivity.
Defined.

Lemma compiled_file_is_served_witness :
  exists w1,
    worker_callback "source" VNull "b.js"
                    {| success := true; compiledPath := ".happypack/s--a.js" |} ex_started
    = (inr tt, w1)
    /\ compileInBackground "source" VNull "b.js" w1
       = (inr tt, log [Done [VNull; VStr "compiled a"]] w1).
Proof.
  apply (compiled_file_is_served ex_started "source" VNull "b.js"
           {| success := true; compiledPath := ".happypack/s--a.js" |} "compiled a");
    [reflexivity | vm_compute; reflexivity | vm_compute; auto].
Defined.

Lemma compile_keeps_lifecycle_witness :
  state (ex_handle (Compile "source" VNull "b.js") ex_started).2 = state ex_started.
Proof.
  apply (compile_keeps_lifecycle ex_config ex_compilerOptions ex_serialize ex_path_resolve
           ex_generateCompiledPath ex_applyLoaders ex_started
           (Compile "source" VNull "b.js")).
  exact I.
Defined.
